(** * youtube-archiver: a shallow embedding of the orchestration code

    The development follows the Python package [youtube_archiver]:

    - [config.py]: [load_config], [get_channel_url], [get_download_directory];
    - [downloader.py]: [fetch_video_metadata], [download_video],
      [download_videos_in_channel] with its inner [sem_download];
    - [main.py]: [list_videos_in_channel], [download_video_with_retries],
      [process_channel], [main_async], [main].

    Python [str] values are sequences of Unicode code points, Python [int]s
    are [Z].  Coroutines are finite trees of events (module [Coro] below);
    the asyncio event loop is a transition system over a table of tasks. *)

From Stdlib Require Import ZArith NArith Bool Lia Ascii String DecimalString.
From stdpp Require Import base list.

Local Open Scope N_scope.

(** ** Python strings *)

Module PyStr.

(** A code point; a [str] is a list of them. *)
Definition codepoint := N.
Definition str := list N.

(** An ASCII literal as a [str]. *)
Definition py (s : string) : str := map N_of_ascii (list_ascii_of_string s).

(** [c.isspace()] for a single character, as CPython's
    [_PyUnicode_IsWhitespace] lists them. *)
Definition isspace (c : codepoint) : bool :=
  ((0x09 <=? c) && (c <=? 0x0D)) || ((0x1C <=? c) && (c <=? 0x20))
  || (c =? 0x85) || (c =? 0xA0) || (c =? 0x1680)
  || ((0x2000 <=? c) && (c <=? 0x200A))
  || (c =? 0x2028) || (c =? 0x2029) || (c =? 0x202F) || (c =? 0x205F)
  || (c =? 0x3000).

Fixpoint drop_while (p : codepoint -> bool) (s : str) : str :=
  match s with
  | [] => []
  | c :: s' => if p c then drop_while p s' else s
  end.

(** [s.lstrip()], [s.rstrip()], [s.strip()]. *)
Definition lstrip (s : str) : str := drop_while isspace s.
Definition rstrip (s : str) : str := rev (drop_while isspace (rev s)).
Definition strip (s : str) : str := lstrip (rstrip s).

(** [c in chars] for a character. *)
Definition char_in (chars : str) (c : codepoint) : bool :=
  existsb (N.eqb c) chars.

(** [s.rstrip(chars)]: every trailing character that belongs to [chars]
    is removed. *)
Definition rstrip_chars (chars : str) (s : str) : str :=
  rev (drop_while (char_in chars) (rev s)).

(** [s.startswith(prefix)]. *)
Fixpoint startswith (prefix s : str) : bool :=
  match prefix, s with
  | [], _ => true
  | _ :: _, [] => false
  | a :: p', b :: s' => (a =? b) && startswith p' s'
  end.

(** [s.startswith((p1, p2, ...))]. *)
Definition startswith_any (prefixes : list str) (s : str) : bool :=
  existsb (fun p => startswith p s) prefixes.

(** [s.endswith(suffix)]. *)
Definition endswith (suffix s : str) : bool :=
  startswith (rev suffix) (rev s).

(** [sub in s]. *)
Fixpoint contains (sub s : str) : bool :=
  startswith sub s ||
  match s with
  | [] => false
  | _ :: s' => contains sub s'
  end.

(** [str(n)] for a non-negative [int]. *)
Definition str_of_nat (n : nat) : str :=
  py (NilEmpty.string_of_uint (Nat.to_uint n)).

(** [str(z)] for an [int]. *)
Definition str_of_Z (z : Z) : str :=
  match z with
  | Z0 => py "0"
  | Zpos p => str_of_nat (Pos.to_nat p)
  | Zneg p => py "-" ++ str_of_nat (Pos.to_nat p)
  end.

End PyStr.

Import PyStr.

(** ** config.py *)

(** [get_channel_url]: the function has no [return] after its last [if], so
    an identifier that takes none of the branches yields Python's [None],
    here [None]. *)
Definition get_channel_url (channel_identifier : str) : option str :=
  (* Clean up the input first *)
  let channel_identifier := strip channel_identifier in
  (* If it's already a full URL *)
  if startswith_any [py "http://"; py "https://"] channel_identifier then
    (* Don't process watch URLs *)
    if contains (py "youtube.com/watch?v=") channel_identifier then
      Some channel_identifier
    (* For channel URLs, ensure we have a trailing '/videos' *)
    else if negb (contains (py "/videos") channel_identifier) then
      Some (rstrip_chars (py "/") channel_identifier ++ py "/videos")
    else Some channel_identifier
  (* Handle channel IDs (UC...) *)
  else if startswith (py "UC") channel_identifier then
    Some (py "https://www.youtube.com/channel/" ++ channel_identifier
          ++ py "/videos")
  (* Handle handles (with or without @) *)
  else if contains (py "@") channel_identifier then
    Some (py "https://www.youtube.com/"
          ++ rstrip_chars (py "/") channel_identifier ++ py "/videos")
  else None.

(** The channel entries of the configuration file, as [process_channel]
    reads them: ["url"] (indexing a missing key raises [KeyError]) and the
    optional ["download_directory"]. *)
Record channel_config := ChannelConfig {
  cfg_url : option str;
  cfg_download_directory : option str;
}.

(** The parsed JSON document as far as [load_config] looks at it: a field
    is [None] when the key is missing or, for the two lists, when its
    value is not a list. *)
Record json_config := JsonConfig {
  json_channels : option (list channel_config);
  json_default_directories : option (list str);
  json_cookies_file : option str;
}.

(** The dictionary [load_config] returns. *)
Record config := Config {
  channels : list channel_config;
  default_directories : list str;
  cookies_file : option str;
}.



(** ** Exceptions, events and coroutines *)

Module Coro.

(** Which collaborator raised an exception that the package did not
    create itself. *)
Inductive origin :=
| FromConfigFile      (* open() in load_config *)
| FromLoggerSetup     (* setup_logger *)
| FromListing         (* ydl.extract_info in list_videos_in_channel *)
| FromProbe           (* _extract_metadata *)
| FromFetch.          (* _run_yt_dlp_download *)

(** The exceptions of the run; all of them are subclasses of [Exception]
    ([BaseException]s such as [CancelledError] and [KeyboardInterrupt] are
    not modelled). *)
Inductive exn :=
| ConfigError (msg : str)
| DownloadError (msg : str)
| KeyError (key : str)
| TypeError (msg : str)
| ValueError (msg : str)
| OverflowError (msg : str)
| External (src : origin) (msg : str).

(** [str(e)]. *)
Definition exn_str (e : exn) : str :=
  match e with
  | ConfigError msg | DownloadError msg | TypeError msg | ValueError msg
  | OverflowError msg | External _ msg => msg
  | KeyError key => py "'" ++ key ++ py "'"
  end.

Inductive level := INFO | WARNING | ERROR.

(** The dictionary yt-dlp returns for one item. *)
Inductive info_dict := InfoDict (fields : list (str * str)).

(** What reading the configuration file gives [load_config]. A document
    that is not an object is a list, of which only the elements that are
    strings matter here, a string, or a number, [true], [false] or [null];
    [exc] is the message of the [TypeError] that indexing it with a string
    or, for the last kind, testing [in] on it raises. *)
Inductive config_file :=
| FileMissing                       (* os.path.exists is false *)
| FileUnreadable (exc : str)        (* open() raised *)
| JsonDecodeError (exc : str)       (* json.load raised JSONDecodeError *)
| Json (doc : json_config)          (* a JSON object *)
| JsonArray (strings : list str) (exc : str)
| JsonString (s : str) (exc : str)
| JsonScalar (exc : str).

(** How a run of [_run_yt_dlp_download] on its worker thread ended. *)
Inductive fetch_result :=
| MakedirsRaised (exc : str)    (* os.makedirs raised *)
| YoutubeDLRaised (exc : str)   (* yt_dlp.YoutubeDL(ydl_opts) raised *)
| DownloadRaised (exc : str)    (* ydl.download raised *)
| Completed.

(** What the coroutines ask of the world and of the event loop. *)
Inductive event :=
| ELog (lvl : level) (msg : str)          (* logger.info / warning / error *)
| EReadConfig (path : str)                (* the file access of load_config *)
| ESetupLogger                            (* setup_logger() *)
| EExtractInfoFlat (url : str)            (* ydl.extract_info, flat listing *)
| ERunExtractMetadata (url : str)
    (* await loop.run_in_executor(None, _extract_metadata, url) *)
| ERunYtDlpDownload (url dir : str) (cookies : option str)
    (* await loop.run_in_executor(None, partial(_run_yt_dlp_download, ...)) *)
| ESleep (delay : Z)                      (* await asyncio.sleep(delay) *)
| ENewSemaphore (value : nat)             (* asyncio.Semaphore(value) *)
| EAcquire                                (* async with semaphore: enter *)
| ERelease                                (* async with semaphore: exit *)
| EGather (ids : list nat)                (* await asyncio.gather over the tasks *)
| ETqdm (total : nat)                     (* with tqdm(total=...) as pbar *)
| EPbarClose.                             (* the end of that with block *)

(** The type of the result of each event. An [inl] is the message of the
    exception the call raised. The entries of a flat listing are [Some id]
    for a truthy entry with an ["id"] key and [None] for any other; the
    list itself is [None] when the ["entries"] key is absent. [EGather]
    answers [Some e] when a gathered task raised [e]. *)
Definition answer (e : event) : Type :=
  match e with
  | EReadConfig _ => config_file
  | ESetupLogger => option str
  | EExtractInfoFlat _ => (str + option (list (option str)))%type
  | ERunExtractMetadata _ => (str + option info_dict)%type
  | ERunYtDlpDownload _ _ _ => fetch_result
  | EGather _ => option exn
  | _ => unit
  end.

(** A done callback; the package registers only [lambda _: pbar.update(n)]. *)
Inductive callback := PbarUpdate (n : nat).

(** A coroutine (or a plain function that calls the world): a finite tree.
    [Vis e k] performs [e] and continues with [k] on its result;
    [CreateTask child cbs k] is [asyncio.create_task(child)] followed, with
    no suspension between, by one [add_done_callback] per element of [cbs];
    [k] receives the new task's number. [OutOfFuel] marks a loop of the
    model that has used up its fuel. *)
Inductive coro (R : Type) : Type :=
| Ret (r : R)
| Raise (e : exn)
| OutOfFuel
| Vis (e : event) (k : answer e -> coro R)
| CreateTask (child : coro unit) (cbs : list callback) (k : nat -> coro R).

Arguments Ret {R} r.
Arguments Raise {R} e.
Arguments OutOfFuel {R}.
Arguments Vis {R} e k.
Arguments CreateTask {R} child cbs k.

(** Sequencing: [x = c; f(x)]. *)
Fixpoint bind {A B} (c : coro A) (f : A -> coro B) : coro B :=
  match c with
  | Ret r => f r
  | Raise e => Raise e
  | OutOfFuel => OutOfFuel
  | Vis e k => Vis e (fun a => bind (k a) f)
  | CreateTask child cbs k => CreateTask child cbs (fun i => bind (k i) f)
  end.

(** [try: c except Exception as e: handler(e)]; a handler for one class
    re-raises the others. *)
Fixpoint try_except {A} (c : coro A) (handler : exn -> coro A) : coro A :=
  match c with
  | Ret r => Ret r
  | Raise e => handler e
  | OutOfFuel => OutOfFuel
  | Vis e k => Vis e (fun a => try_except (k a) handler)
  | CreateTask child cbs k =>
      CreateTask child cbs (fun i => try_except (k i) handler)
  end.

(** [try: c finally: cleanup], the exit of a [with] block. *)
Fixpoint finally {A} (c : coro A) (cleanup : coro unit) : coro A :=
  match c with
  | Ret r => bind cleanup (fun _ => Ret r)
  | Raise e => bind cleanup (fun _ => Raise e)
  | OutOfFuel => OutOfFuel
  | Vis e k => Vis e (fun a => finally (k a) cleanup)
  | CreateTask child cbs k =>
      CreateTask child cbs (fun i => finally (k i) cleanup)
  end.

#[global] Instance coro_ret : MRet coro := @Ret.
#[global] Instance coro_bind : MBind coro := fun A B f c => bind c f.

(** An event whose result is [None]. *)
Definition perform (e : event) : coro unit := Vis e (fun _ => Ret tt).

Definition log (lvl : level) (msg : str) : coro unit := perform (ELog lvl msg).

(** [asyncio.sleep] adds the delay to the loop's clock, a float: an integer
    that does not fit a float, from 2^1024 - 2^970 on, raises
    [OverflowError] before anything is awaited. *)
Definition sleep_overflows (delay : Z) : bool :=
  (2 ^ 1024 - 2 ^ 970 <=? delay)%Z.

Definition sleep_overflow : exn :=
  OverflowError (py "int too large to convert to float").

(** [await asyncio.sleep(delay)]. *)
Definition sleep (delay : Z) : coro unit :=
  if sleep_overflows delay then Raise sleep_overflow
  else perform (ESleep delay).

(** [asyncio.Semaphore(value)]: a negative value raises [ValueError]. *)
Definition Semaphore (value : Z) : coro unit :=
  if (value <? 0)%Z
  then Raise (ValueError (py "Semaphore initial value must be >= 0"))
  else perform (ENewSemaphore (Z.to_nat value)).

(** [async with semaphore: body]. *)
Definition async_with_semaphore {A} (body : coro A) : coro A :=
  Vis EAcquire (fun _ => finally body (perform ERelease)).

(** [with tqdm(total=total) as pbar: body]. *)
Definition with_tqdm {A} (total : nat) (body : coro A) : coro A :=
  Vis (ETqdm total) (fun _ => finally body (perform EPbarClose)).

(** [asyncio.create_task(child)], with its done callbacks. *)
Definition create_task (child : coro unit) (cbs : list callback) : coro nat :=
  CreateTask child cbs Ret.

(** [await asyncio.gather] over [tasks] (without [return_exceptions]): the first
    exception of a gathered task is raised in the caller. *)
Definition gather (tasks : list nat) : coro unit :=
  Vis (EGather tasks) (fun a =>
    match a with
    | Some e => Raise e
    | None => Ret tt
    end).

End Coro.

Import Coro.

(** ** downloader.py *)

Definition RETRY_LIMIT : nat := 3.

(** Python's truth value of an [Optional[int]] and of an [Optional[str]]. *)
Definition truthy_int (x : option Z) : bool :=
  match x with
  | Some z => negb (z =? 0)%Z
  | None => false
  end.

Definition truthy_str (x : option str) : bool :=
  match x with
  | Some (_ :: _) => true
  | _ => false
  end.

(** [fetch_video_metadata]: the probe; any exception of the worker becomes
    [None]. *)
Definition fetch_video_metadata (url : str) : coro (option info_dict) :=
  Vis (ERunExtractMetadata url) (fun a =>
    match a with
    | inr metadata => Ret metadata
    | inl _ => Ret None
    end).

(** [_run_yt_dlp_download] runs on a worker thread. The exception it ends
    with, if any, and the lines it writes to the shared logger follow from
    how far it got. *)
Definition fetch_exc (r : fetch_result) : option str :=
  match r with
  | MakedirsRaised exc | YoutubeDLRaised exc | DownloadRaised exc => Some exc
  | Completed => None
  end.

Definition _run_yt_dlp_download (video_url : str) (cookies_file : option str)
    (r : fetch_result) : list (level * str) :=
  let cookies_line :=
    match cookies_file with
    | Some f => if truthy_str cookies_file
                then [(INFO, py "Using cookies file: " ++ f)] else []
    | None => []
    end in
  let starting := (INFO, py "Starting download: " ++ video_url) in
  let completed := (INFO, py "Completed download: " ++ video_url) in
  match r with
  | MakedirsRaised _ => []
  | YoutubeDLRaised _ => cookies_line
  | DownloadRaised _ => cookies_line ++ [starting]
  | Completed => cookies_line ++ [starting; completed]
  end.

Definition attempt_failed_msg (tries : nat) (video_url exc : str) : str :=
  py "Download attempt " ++ str_of_nat tries ++ py " for " ++ video_url
  ++ py " failed: " ++ exc.

Definition retries_exhausted_msg (video_url : str) : str :=
  py "Failed to download " ++ video_url ++ py " after "
  ++ str_of_nat RETRY_LIMIT ++ py " retries.".

(** [await loop.run_in_executor(None, partial(_run_yt_dlp_download, ...))]:
    the exception of the worker is raised in the coroutine. *)
Definition run_in_executor_download (video_url download_directory : str)
    (cookies_file : option str) : coro unit :=
  Vis (ERunYtDlpDownload video_url download_directory cookies_file) (fun a =>
    match fetch_exc a with
    | Some exc => Raise (External FromFetch exc)
    | None => Ret tt
    end).

(** The [while tries < RETRY_LIMIT] loop of [download_video], entered with
    [tries] failed attempts; [fuel] bounds the number of iterations. The
    [try] block ends with [true] when it reaches its [return]; the handler
    ends with [false] when the loop goes on. The sleep is inside the
    [try]: an exception of [asyncio.sleep] is handled like one of the
    fetch. *)
Fixpoint download_video_loop (fuel tries : nat) (video_url download_directory : str)
    (cookies_file : option str) (rate_limit : option Z) : coro unit :=
  match fuel with
  | O => OutOfFuel
  | S fuel =>
      if (tries <? RETRY_LIMIT)%nat then
        returned ←
          try_except
            (run_in_executor_download video_url download_directory cookies_file ;;
             (* Sleep after successful download if rate_limit is set *)
             match rate_limit with
             | Some delay =>
                 if truthy_int rate_limit then sleep delay else Ret tt
             | None => Ret tt
             end ;;
             Ret true)
            (fun exc =>
               let tries := (tries + 1)%nat in
               log WARNING (attempt_failed_msg tries video_url (exn_str exc)) ;;
               if (RETRY_LIMIT <=? tries)%nat
               then Raise (DownloadError (retries_exhausted_msg video_url))
               else Ret false);
        if returned : bool then Ret tt
        else download_video_loop fuel (tries + 1) video_url download_directory
               cookies_file rate_limit
      else Ret tt
  end.

(** [download_video]. *)
Definition download_video (video_url download_directory : str)
    (cookies_file : option str) (rate_limit : option Z) : coro unit :=
  download_video_loop RETRY_LIMIT 0 video_url download_directory cookies_file
    rate_limit.

Definition skipping_msg (video_url : str) : str :=
  py "Skipping download (metadata fetch failed): " ++ video_url.

(** [sem_download], the inner coroutine of [download_videos_in_channel]. *)
Definition sem_download (download_dir : str) (rate_limit : option Z)
    (video_url : str) : coro unit :=
  async_with_semaphore (
    metadata ← fetch_video_metadata video_url;
    match metadata with
    | None =>
        (* If we fail to get metadata, skip gracefully *)
        log WARNING (skipping_msg video_url)
    | Some _ =>
        (* Now proceed to download *)
        try_except (download_video video_url download_dir None rate_limit)
          (fun e =>
             match e with
             | DownloadError _ => log ERROR (exn_str e)
             | _ => Raise e
             end)
    end).

(** The [for video_url in channel_videos] loop of
    [download_videos_in_channel]: one task per item, each with the done
    callback that advances the progress bar. *)
Fixpoint create_sem_downloads (channel_videos : list str) (download_dir : str)
    (rate_limit : option Z) (tasks : list nat) : coro (list nat) :=
  match channel_videos with
  | [] => Ret tasks
  | video_url :: rest =>
      task ← create_task (sem_download download_dir rate_limit video_url)
                [PbarUpdate 1];
      create_sem_downloads rest download_dir rate_limit (tasks ++ [task])
  end.

(** [download_videos_in_channel]. *)
Definition download_videos_in_channel (channel_videos : list str)
    (download_dir : str) (max_concurrent : Z) (rate_limit : option Z)
    : coro unit :=
  Semaphore max_concurrent ;;
  (* We track overall progress by the total number of videos *)
  with_tqdm (length channel_videos) (
    tasks ← create_sem_downloads channel_videos download_dir rate_limit [];
    gather tasks).

(** ** main.py *)

Definition watch_url (video_id : str) : str :=
  py "https://www.youtube.com/watch?v=" ++ video_id.

(** The loop of [list_videos_in_channel] over the listing's entries. *)
Fixpoint video_urls_of (entries : list (option str)) : list str :=
  match entries with
  | [] => []
  | Some video_id :: rest => watch_url video_id :: video_urls_of rest
  | None :: rest => video_urls_of rest
  end.

(** [list_videos_in_channel]; it is called with whatever [get_channel_url]
    returned, and the [in] test raises [TypeError] on [None]. The call of
    yt-dlp blocks: it is no suspension point. *)
Definition list_videos_in_channel (channel_url : option str) : coro (list str) :=
  match channel_url with
  | None => Raise (TypeError (py "argument of type 'NoneType' is not iterable"))
  | Some url =>
      (* If this is a watch URL, return it as a single-item list *)
      if contains (py "youtube.com/watch?v=") url then Ret [url]
      else
        Vis (EExtractInfoFlat url) (fun a =>
          match a with
          | inl exc => Raise (External FromListing exc)
          | inr entries => Ret (video_urls_of (default [] entries))
          end)
  end.

Definition failed_after_retries_msg (video_url : str) (e : exn) : str :=
  py "Failed to download video " ++ video_url ++ py " after retries: "
  ++ exn_str e.

Definition error_processing_msg (video_url : str) (e : exn) : str :=
  py "Error processing video " ++ video_url ++ py ": " ++ exn_str e.

(** [download_video_with_retries]. *)
Definition download_video_with_retries (video_url download_directory : str)
    (cookies_file : option str) (rate_limit : option Z) : coro unit :=
  try_except
    (download_video video_url download_directory cookies_file rate_limit)
    (fun e =>
       match e with
       | DownloadError _ => log ERROR (failed_after_retries_msg video_url e)
       | _ => log ERROR (error_processing_msg video_url e)
       end).

(** [f"{channel_url}"] for the optional URL. *)
Definition fmt_url (channel_url : option str) : str :=
  default (py "None") channel_url.

(** The [for video_url in video_urls] loop of [process_channel]: the
    semaphore is entered and left around the creation of each task. *)
Fixpoint create_downloads (video_urls : list str) (download_directory : str)
    (cookies_file : option str) (rate_limit : option Z) (tasks : list nat)
    : coro (list nat) :=
  match video_urls with
  | [] => Ret tasks
  | video_url :: rest =>
      task ← async_with_semaphore (  (* Limit concurrent downloads *)
        create_task
          (download_video_with_retries video_url download_directory
             cookies_file rate_limit) []);
      create_downloads rest download_directory cookies_file rate_limit
        (tasks ++ [task])
  end.

(** [process_channel]. *)
Definition process_channel (channel_config : channel_config)
    (default_download_directory : str) (cookies_file : option str)
    (rate_limit : option Z) : coro unit :=
  raw ← match cfg_url channel_config with
        | Some u => Ret u
        | None => Raise (KeyError (py "url"))
        end;
  let channel_url := get_channel_url raw in
  let download_directory :=
    default default_download_directory (cfg_download_directory channel_config) in
  log INFO (py "Processing channel URL: " ++ fmt_url channel_url) ;;
  video_urls ← list_videos_in_channel channel_url;
  log INFO (py "Found " ++ str_of_nat (length video_urls)
            ++ py " videos in channel: " ++ fmt_url channel_url) ;;
  tasks ← create_downloads video_urls download_directory cookies_file
            rate_limit [];
  gather tasks ;;
  log INFO (py "Completed processing channel: " ++ fmt_url channel_url).

(** [load_config] of config.py, over what the file access returned. *)
Definition load_config (config_path : str) : coro config :=
  Vis (EReadConfig config_path) (fun a =>
    match a with
    | FileMissing =>
        Raise (ConfigError (py "Configuration file not found at: " ++ config_path))
    | FileUnreadable exc => Raise (External FromConfigFile exc)
    | JsonDecodeError exc =>
        Raise (ConfigError (py "Error parsing config JSON: " ++ exc))
    | Json doc =>
        (* Basic validation *)
        match json_channels doc with
        | None =>
            Raise (ConfigError (py "Configuration must contain a 'channels' list."))
        | Some chans =>
            match json_default_directories doc with
            | None =>
                Raise (ConfigError
                  (py "Configuration must contain a 'default_directories' list."))
            | Some dirs => Ret (Config chans dirs (json_cookies_file doc))
            end
        end
    | JsonArray strings exc =>
        (* ["channels" in config] looks for an equal element;
           [config["channels"]] raises *)
        if bool_decide (py "channels" ∈ strings)
        then Raise (TypeError exc)
        else Raise (ConfigError (py "Configuration must contain a 'channels' list."))
    | JsonString s exc =>
        (* ["channels" in config] looks for a substring *)
        if contains (py "channels") s
        then Raise (TypeError exc)
        else Raise (ConfigError (py "Configuration must contain a 'channels' list."))
    | JsonScalar exc => Raise (TypeError exc)
    end).

(** [setup_logger]: creating the log directory and file may fail. *)
Definition setup_logger : coro unit :=
  Vis ESetupLogger (fun a =>
    match a with
    | Some exc => Raise (External FromLoggerSetup exc)
    | None => Ret tt
    end).

(** The [for channel_config in channels_config] loop of [main_async]. *)
Fixpoint create_channels (channels_config : list channel_config)
    (default_download_directory : str) (cookies_file : option str)
    (rate_limit : option Z) (tasks : list nat) : coro (list nat) :=
  match channels_config with
  | [] => Ret tasks
  | channel_config :: rest =>
      task ← create_task
                (process_channel channel_config default_download_directory
                   cookies_file rate_limit) [];
      create_channels rest default_download_directory cookies_file rate_limit
        (tasks ++ [task])
  end.

(** [main_async]. *)
Definition main_async (config_path : str) (max_concurrent_downloads : Z)
    (rate_limit : option Z) : coro unit :=
  config ← load_config config_path;
  setup_logger ;;
  Semaphore max_concurrent_downloads ;;
  let default_download_directory :=
    match default_directories config with
    | d :: _ => d
    | [] => py "."
    end in
  let channels_config := channels config in
  let cookies_file := cookies_file config in
  log INFO (py "Starting YouTube Archiver") ;;
  log INFO (py "Maximum concurrent downloads: "
            ++ str_of_Z max_concurrent_downloads) ;;
  match rate_limit with
  | Some delay =>
      if truthy_int rate_limit
      then log INFO (py "Rate limit delay: " ++ str_of_Z delay
                     ++ py " seconds after each download")
      else Ret tt
  | None => Ret tt
  end ;;
  match cookies_file with
  | Some f =>
      if truthy_str cookies_file
      then log INFO (py "Using cookies file from config: " ++ f)
      else Ret tt
  | None => Ret tt
  end ;;
  tasks ← create_channels channels_config default_download_directory
            cookies_file rate_limit [];
  gather tasks ;;
  log INFO (py "YouTube Archiver finished processing all channels.").

(** The command line after argparse: [--config], [--max-concurrent]
    (default 3) and [--rate-limit] (default 5). *)
Record args := Args {
  args_config : str;
  args_max_concurrent : Z;
  args_rate_limit : Z;
}.

Definition default_max_concurrent : Z := 3.
Definition default_rate_limit : Z := 5.

(** The rate limit [main] hands to [main_async]: [None] if the argument is
    not positive. *)
Definition rate_limit_of_args (a : args) : option Z :=
  if (0 <? args_rate_limit a)%Z then Some (args_rate_limit a) else None.

(** [main]: the coroutine given to [asyncio.run]. *)
Definition main (a : args) : coro unit :=
  let config_path := args_config a in
  let max_concurrent_downloads := args_max_concurrent a in
  let rate_limit := rate_limit_of_args a in
  main_async config_path max_concurrent_downloads rate_limit.

(** ** One coroutine on its own *)

(** The world's side of a run: the result it gives to each event. *)
Definition world := forall e : event, answer e.

(** An event together with the result it got. *)
Definition obs := {e : event & answer e}.

Inductive outcome (R : Type) :=
| Returned (r : R)
| Raised (e : exn)
| Exhausted          (* the model's fuel ran out *)
| Forked.            (* the coroutine creates a task: it needs the loop *)

Arguments Returned {R} r.
Arguments Raised {R} e.
Arguments Exhausted {R}.
Arguments Forked {R}.

(** [run c ws]: the coroutine [c] driven to its end, its [n]-th event
    answered by [ws n]; the events are listed in the order they happen. *)
Fixpoint run {R} (c : coro R) (ws : nat -> world) : list obs * outcome R :=
  match c with
  | Ret r => ([], Returned r)
  | Raise e => ([], Raised e)
  | OutOfFuel => ([], Exhausted)
  | Vis e k =>
      let a := ws O e in
      let '(tr, o) := run (k a) (fun n => ws (S n)) in
      (existT e a :: tr, o)
  | CreateTask _ _ _ => ([], Forked)
  end.

(** The result of a fetch, if the event is one. *)
Definition fetch_of (o : obs) : option fetch_result :=
  match o with
  | existT e a =>
      match e as e0 return answer e0 -> option fetch_result with
      | ERunYtDlpDownload _ _ _ => fun r => Some r
      | _ => fun _ => None
      end a
  end.

(** The delay of a sleep, if the event is one. *)
Definition sleep_of (o : obs) : option Z :=
  match projT1 o with
  | ESleep delay => Some delay
  | _ => None
  end.

(** The lines an event adds to the log: its own for a logger call, the
    worker's for a fetch. *)
Definition lines_of (o : obs) : list (level * str) :=
  match o with
  | existT e a =>
      match e as e0 return answer e0 -> list (level * str) with
      | ELog lvl msg => fun _ => [(lvl, msg)]
      | ERunYtDlpDownload url _ cookies => fun r => _run_yt_dlp_download url cookies r
      | _ => fun _ => []
      end a
  end.

Definition is_probe (e : event) : bool :=
  match e with
  | ERunExtractMetadata _ => true
  | _ => false
  end.

(** The results of the fetch attempts, the delays slept, the log lines and
    the number of probes of a trace. *)
Definition fetches (tr : list obs) : list fetch_result := omap fetch_of tr.
Definition sleeps (tr : list obs) : list Z := omap sleep_of tr.
Definition logged_lines (tr : list obs) : list (level * str) :=
  flat_map lines_of tr.
Definition probes (tr : list obs) : nat :=
  length (filter (fun o => is_probe (projT1 o) = true) tr).

Definition level_eqb (a b : level) : bool :=
  match a, b with
  | INFO, INFO | WARNING, WARNING | ERROR, ERROR => true
  | _, _ => false
  end.

(** The messages logged at one level. *)
Definition at_level (lvl : level) (ls : list (level * str)) : list str :=
  omap (fun l => if level_eqb (fst l) lvl then Some (snd l) else None) ls.

(** ** The asyncio event loop *)

#[global] Instance origin_eq_dec : EqDecision origin.
Proof. solve_decision. Defined.

#[global] Instance exn_eq_dec : EqDecision exn.
Proof. solve_decision. Defined.

(** A task of the loop: the rest of its coroutine ([Ret] or [Raise] once it
    is done), whether it is suspended on a worker or a timer, how many
    slots of the semaphore it has entered and not left, and its done
    callbacks that have not run yet. *)
Record task := Task {
  code : coro unit;
  waiting : bool;
  holds : nat;
  callbacks : list callback;
}.

(** The loop of one [asyncio.run]: its tasks, numbered by position, the
    counter of the run's semaphore, the progress bar as [(total, n)], and
    the lines logged so far. *)
Record loop := Loop {
  tasks : list task;
  sem : nat;
  pbar : option (nat * nat);
  logged : list (level * str);
}.

(** [asyncio.run(root)]. *)
Definition boot (root : coro unit) : loop :=
  Loop [Task root false 0 []] 0 None [].

Definition is_done (t : task) : bool :=
  match code t with
  | Ret _ | Raise _ => true
  | _ => false
  end.

Definition returned (t : task) : bool :=
  match code t with
  | Ret _ => true
  | _ => false
  end.

Definition raised (e : exn) (t : task) : bool :=
  match code t with
  | Raise e' => bool_decide (e' = e)
  | _ => false
  end.

(** Task [i] goes on with [c], holding [h] slots. *)
Definition proceed (i : nat) (t : task) (c : coro unit) (h : nat) (s : loop)
    : loop :=
  Loop (<[i := Task c false h (callbacks t)]> (tasks s))
       (sem s) (pbar s) (logged s).

Definition resume (i : nat) (t : task) (c : coro unit) (s : loop) : loop :=
  proceed i t c (holds t) s.

(** Task [i] has handed its job to a worker (or set its timer) and waits. *)
Definition suspend (i : nat) (t : task) (s : loop) : loop :=
  Loop (<[i := Task (code t) true (holds t) (callbacks t)]> (tasks s))
       (sem s) (pbar s) (logged s).

Definition add_lines (ls : list (level * str)) (s : loop) : loop :=
  Loop (tasks s) (sem s) (pbar s) (logged s ++ ls).

Definition set_sem (v : nat) (s : loop) : loop :=
  Loop (tasks s) v (pbar s) (logged s).

Definition set_pbar (p : option (nat * nat)) (s : loop) : loop :=
  Loop (tasks s) (sem s) p (logged s).

(** [pbar.update(n)]. *)
Definition pbar_update (n : nat) (p : option (nat * nat)) : option (nat * nat) :=
  match p with
  | Some (total, cur) => Some (total, cur + n)%nat
  | None => None
  end.

(** An await on a worker or a timer takes two steps of the task: it
    suspends, and later it is resumed with the result. *)
Definition await (i : nat) (t : task) (after : loop -> loop) (s : loop)
    : option loop :=
  if waiting t then Some (after s) else Some (suspend i t s).

(** One step of task [i] at the event [e], with continuation [k]. *)
Definition step_event (i : nat) (t : task) (e : event)
    : (answer e -> coro unit) -> world -> loop -> option loop :=
  match e as e0 return (answer e0 -> coro unit) -> world -> loop -> option loop with
  | ELog lvl msg => fun k w s =>
      Some (add_lines [(lvl, msg)] (resume i t (k tt) s))
  | EReadConfig path => fun k w s =>
      Some (resume i t (k (w (EReadConfig path))) s)
  | ESetupLogger => fun k w s =>
      Some (resume i t (k (w ESetupLogger)) s)
  | EExtractInfoFlat url => fun k w s =>
      Some (resume i t (k (w (EExtractInfoFlat url))) s)
  | ERunExtractMetadata url => fun k w s =>
      await i t (resume i t (k (w (ERunExtractMetadata url)))) s
  | ERunYtDlpDownload url dir cookies => fun k w s =>
      let r := w (ERunYtDlpDownload url dir cookies) in
      await i t (fun s => add_lines (_run_yt_dlp_download url cookies r)
                            (resume i t (k r) s)) s
  | ESleep delay => fun k w s =>
      await i t (resume i t (k tt)) s
  | ENewSemaphore value => fun k w s =>
      Some (set_sem value (resume i t (k tt) s))
  | EAcquire => fun k w s =>
      (* blocked while the counter is zero *)
      if (0 <? sem s)%nat
      then Some (set_sem (sem s - 1) (proceed i t (k tt) (S (holds t)) s))
      else None
  | ERelease => fun k w s =>
      Some (set_sem (sem s + 1) (proceed i t (k tt) (holds t - 1) s))
  | EGather ids => fun k w s =>
      match w (EGather ids) with
      | Some e =>
          (* a gathered task has raised [e] *)
          if existsb (fun id => from_option (raised e) false (tasks s !! id)) ids
          then Some (resume i t (k (Some e)) s) else None
      | None =>
          (* every gathered task has returned *)
          if forallb (fun id => from_option returned false (tasks s !! id)) ids
          then Some (resume i t (k None) s) else None
      end
  | ETqdm total => fun k w s =>
      Some (set_pbar (Some (total, 0%nat)) (resume i t (k tt) s))
  | EPbarClose => fun k w s =>
      Some (resume i t (k tt) s)
  end.

(** One step of the loop: task [i] runs up to its next event, with the
    world [w] answering. A task that is done runs its next done callback. *)
Definition step (i : nat) (w : world) (s : loop) : option loop :=
  match tasks s !! i with
  | None => None
  | Some t =>
      match code t with
      | Ret _ | Raise _ =>
          match callbacks t with
          | PbarUpdate n :: rest =>
              Some (Loop (<[i := Task (code t) false (holds t) rest]> (tasks s))
                         (sem s) (pbar_update n (pbar s)) (logged s))
          | [] => None
          end
      | OutOfFuel => None
      | CreateTask child cbs k =>
          Some (Loop (<[i := Task (k (length (tasks s))) false (holds t)
                                  (callbacks t)]> (tasks s)
                      ++ [Task child false 0 cbs])
                     (sem s) (pbar s) (logged s))
      | Vis e k => step_event i t e k w s
      end
  end.

(** A schedule: which task steps, and what the world answers. *)
Fixpoint run_loop (schedule : list (nat * world)) (s : loop) : option loop :=
  match schedule with
  | [] => Some s
  | (i, w) :: rest =>
      match step i w s with
      | Some s' => run_loop rest s'
      | None => None
      end
  end.

(** The states a run can reach from [s0]. *)
Inductive reachable (s0 : loop) : loop -> Prop :=
| reach_refl : reachable s0 s0
| reach_step s i w s' :
    reachable s0 s -> step i w s = Some s' -> reachable s0 s'.

(** A task is in flight while it is suspended in its probe, fetch or
    rate-limit delay. *)
Definition item_stage (e : event) : bool :=
  match e with
  | ERunExtractMetadata _ | ERunYtDlpDownload _ _ _ | ESleep _ => true
  | _ => false
  end.

Definition in_flight (t : task) : bool :=
  match code t with
  | Vis e _ => waiting t && item_stage e
  | _ => false
  end.

Definition in_flight_count (s : loop) : nat :=
  length (filter (fun t => in_flight t = true) (tasks s)).

(** ** Worlds for concrete runs *)

(** What a world answers to each kind of event. *)
Record answers := Answers {
  on_config : config_file;
  on_logger : option str;
  on_listing : str + option (list (option str));
  on_probe : str + option info_dict;
  on_fetch : fetch_result;
  on_gather : option exn;
}.

Definition world_of (a : answers) : world :=
  fun e =>
    match e as e0 return answer e0 with
    | EReadConfig _ => on_config a
    | ESetupLogger => on_logger a
    | EExtractInfoFlat _ => on_listing a
    | ERunExtractMetadata _ => on_probe a
    | ERunYtDlpDownload _ _ _ => on_fetch a
    | EGather _ => on_gather a
    | _ => tt
    end.

(** Nothing fails: an empty configuration, empty listings, every probe and
    fetch succeeds. *)
Definition calm_answers : answers :=
  Answers (Json (JsonConfig (Some []) (Some []) None)) None (inr (Some []))
          (inr (Some (InfoDict []))) Completed None.

Definition calm : world := world_of calm_answers.

(** As [calm], but every fetch ends with an exception of [ydl.download]. *)
Definition fetch_fails (exc : str) : world :=
  world_of (Answers (on_config calm_answers) None (inr (Some []))
                    (inr (Some (InfoDict []))) (DownloadRaised exc) None).

(** As [calm], but every probe raises. *)
Definition probe_fails (exc : str) : world :=
  world_of (Answers (on_config calm_answers) None (inr (Some []))
                    (inl exc) Completed None).

(** ** The shape of the traces of [download_video] *)

Section TraceShapes.

Variables (video_url download_directory : str) (cookies_file : option str)
  (rate_limit : option Z).

Definition fetch_obs (r : fetch_result) : obs :=
  existT (ERunYtDlpDownload video_url download_directory cookies_file) r.

Definition log_obs (lvl : level) (msg : str) : obs := existT (ELog lvl msg) tt.

Definition sleep_obs (delay : Z) : obs := existT (ESleep delay) tt.

(** The message of the exception that the sleep of an attempt raises: the
    sleep is called when [rate_limit] is truthy, and raises when the delay
    does not fit a float. *)
Definition sleep_exc : option str :=
  match rate_limit with
  | Some delay =>
      if truthy_int rate_limit && sleep_overflows delay
      then Some (exn_str sleep_overflow) else None
  | None => None
  end.

(** The message of the exception that ends the [try] block of an attempt
    whose fetch ended with [r]: that of the fetch, or else that of the
    sleep. *)
Definition attempt_exc (r : fetch_result) : option str :=
  match fetch_exc r with
  | Some exc => Some exc
  | None => sleep_exc
  end.

(** The events of failed attempts number [tries + 1], [tries + 2], ...:
    each fetch is followed by its warning. *)
Fixpoint failed_attempts (tries : nat) (rs : list fetch_result) : list obs :=
  match rs with
  | [] => []
  | r :: rest =>
      fetch_obs r
      :: log_obs WARNING
           (attempt_failed_msg (S tries) video_url (default [] (attempt_exc r)))
      :: failed_attempts (S tries) rest
  end.

(** What follows the successful fetch. *)
Definition after_success : list obs :=
  match rate_limit with
  | Some delay => if truthy_int rate_limit then [sleep_obs delay] else []
  | None => []
  end.

(** The fetch failed. *)
Definition failed (r : fetch_result) : Prop := is_Some (fetch_exc r).

(** The attempt failed: its fetch, or its sleep. *)
Definition lost (r : fetch_result) : Prop := is_Some (attempt_exc r).

(** The warnings of failed attempts number [tries + 1], [tries + 2], ... *)
Fixpoint attempt_warnings (tries : nat) (rs : list fetch_result) : list str :=
  match rs with
  | [] => []
  | r :: rest =>
      attempt_failed_msg (S tries) video_url (default [] (attempt_exc r))
      :: attempt_warnings (S tries) rest
  end.

End TraceShapes.

(** ** What a step of the loop does, by event *)

(** The slots a task holds, the semaphore's counter and the progress bar
    after an event. *)
Definition holds_after (e : event) (h : nat) : nat :=
  match e with
  | EAcquire => S h
  | ERelease => h - 1
  | _ => h
  end.

Definition sem_after (e : event) (v : nat) : nat :=
  match e with
  | ENewSemaphore value => value
  | EAcquire => v - 1
  | ERelease => v + 1
  | _ => v
  end.

Definition pbar_after (e : event) (p : option (nat * nat)) : option (nat * nat) :=
  match e with
  | ETqdm total => Some (total, 0%nat)
  | _ => p
  end.

(** The result of a [gather] reflects the gathered tasks: [Some x] only if
    one of them has raised [x], [None] only if all have returned. *)
Definition gather_sound (s : loop) (e : event) : answer e -> Prop :=
  match e as e0 return answer e0 -> Prop with
  | EGather ids => fun a =>
      match a with
      | Some x =>
          exists id t, In id ids /\ tasks s !! id = Some t /\ code t = Raise x
      | None =>
          forall id, In id ids ->
            exists t, tasks s !! id = Some t /\ returned t = true
      end
  | _ => fun _ => True
  end.

(** The four kinds of step of task [i], whose entry is [t]. *)
Inductive step_case (i : nat) (s s' : loop) (t : task) : Prop :=
| case_callback (n : nat) (rest : list callback) :
    is_done t = true ->
    callbacks t = PbarUpdate n :: rest ->
    s' = Loop (<[i := Task (code t) false (holds t) rest]> (tasks s))
              (sem s) (pbar_update n (pbar s)) (logged s) ->
    step_case i s s' t
| case_create (child : coro unit) (cbs : list callback) (k : nat -> coro unit) :
    code t = CreateTask child cbs k ->
    s' = Loop (<[i := Task (k (length (tasks s))) false (holds t) (callbacks t)]>
                 (tasks s) ++ [Task child false 0 cbs])
              (sem s) (pbar s) (logged s) ->
    step_case i s s' t
| case_suspend (e : event) (k : answer e -> coro unit) :
    code t = Vis e k ->
    item_stage e = true ->
    waiting t = false ->
    s' = suspend i t s ->
    step_case i s s' t
| case_event (e : event) (k : answer e -> coro unit) (a : answer e) :
    code t = Vis e k ->
    (item_stage e = true -> waiting t = true) ->
    (e = EAcquire -> (0 < sem s)%nat) ->
    gather_sound s e a ->
    s' = Loop (<[i := Task (k a) false (holds_after e (holds t)) (callbacks t)]>
                 (tasks s))
              (sem_after e (sem s)) (pbar_after e (pbar s))
              (logged s ++ lines_of (existT e a)) ->
    step_case i s s' t.

(** ** Properties of coroutine trees *)

(** Every event of [c] satisfies [Q], every exception it ends with is in
    [T], its fuel never runs out, and [c] creates no task. *)
Fixpoint plain (Q : event -> bool) (T : exn -> Prop) {R : Type} (c : coro R)
    : Prop :=
  match c with
  | Ret _ => True
  | OutOfFuel => False
  | Raise e => T e
  | Vis e k => Q e = true /\ forall a, plain Q T (k a)
  | CreateTask _ _ _ => False
  end.

(** A result of [gather] that raises raises within [T]. *)
Definition gather_within (T : exn -> Prop) (e : event) : answer e -> Prop :=
  match e as e0 return answer e0 -> Prop with
  | EGather _ => fun a =>
      match a with
      | Some x => T x
      | None => True
      end
  | _ => fun _ => True
  end.

(** Every event of [c] and of the tasks it creates satisfies [Q], every
    exception they end with is in [T], provided the exceptions that
    [gather] hands over are, and their fuel never runs out. *)
Fixpoint confined (Q : event -> bool) (T : exn -> Prop) {R : Type} (c : coro R)
    : Prop :=
  match c with
  | Ret _ => True
  | OutOfFuel => False
  | Raise e => T e
  | Vis e k => Q e = true /\ forall a, gather_within T e a -> confined Q T (k a)
  | CreateTask child _ k => confined Q T child /\ forall i, confined Q T (k i)
  end.

(** The semaphore discipline of a task that holds [h] slots: it is in its
    probe, fetch or delay only while it holds a slot, leaves only what it
    has entered, ends with no slot, creates tasks that start with none,
    and creates no semaphore. *)
Definition sem_ok (e : event) (h : nat) : Prop :=
  match e with
  | ENewSemaphore _ => False
  | ERelease => (1 <= h)%nat
  | _ => item_stage e = true -> (1 <= h)%nat
  end.

Fixpoint disciplined {R : Type} (h : nat) (c : coro R) : Prop :=
  match c with
  | Ret _ | Raise _ => h = 0%nat
  | OutOfFuel => True
  | Vis e k => sem_ok e h /\ forall a, disciplined (holds_after e h) (k a)
  | CreateTask child _ k => disciplined 0 child /\ forall i, disciplined h (k i)
  end.

(** The classes of events used below. *)
Definition is_fetch_stage (e : event) : bool :=
  match e with
  | ELog _ _ | ERunYtDlpDownload _ _ _ | ESleep _ => true
  | _ => false
  end.

Definition is_item_event (e : event) : bool :=
  match e with
  | ELog _ _ | ERunExtractMetadata _ | ERunYtDlpDownload _ _ _ | ESleep _ => true
  | _ => false
  end.

Definition is_sem_item_event (e : event) : bool :=
  match e with
  | EAcquire | ERelease => true
  | _ => is_item_event e
  end.

Definition no_tqdm (e : event) : bool :=
  match e with
  | ETqdm _ => false
  | _ => true
  end.

(** The events of the path that [main] wires: all but the probe and the
    progress bar. *)
Definition wired_event (e : event) : bool :=
  match e with
  | ERunExtractMetadata _ | ETqdm _ | EPbarClose => false
  | _ => true
  end.

Definition no_one (e : exn) : Prop := False.

Definition is_download_error (e : exn) : Prop := exists msg, e = DownloadError msg.

(** A failure of one item: the exhausted retries of [download_video], or
    an exception of the probe or of the fetch. *)
Definition item_failure (e : exn) : Prop :=
  match e with
  | DownloadError _ | External FromProbe _ | External FromFetch _ => True
  | _ => False
  end.

Definition not_item_failure (e : exn) : Prop := ~ item_failure e.

(** The coroutines of the tasks that [c] creates up to its first wait, in
    the order it creates them, when [ws] answers its events, the first new
    task gets the number [next] and the semaphore has [slots] free slots
    that no other task takes: [c] waits at a [gather], and at an [async
    with semaphore] when no slot is free. *)
Fixpoint created_from {R : Type} (slots : nat) (c : coro R) (ws : nat -> world)
    (next : nat) : list (coro unit) :=
  match c with
  | Vis e k =>
      match e with
      | EGather _ => []
      | EAcquire =>
          match slots with
          | O => []
          | S free => created_from free (k (ws O e)) (fun n => ws (S n)) next
          end
      | ERelease => created_from (S slots) (k (ws O e)) (fun n => ws (S n)) next
      | ENewSemaphore value =>
          created_from value (k (ws O e)) (fun n => ws (S n)) next
      | _ => created_from slots (k (ws O e)) (fun n => ws (S n)) next
      end
  | CreateTask child _ k => child :: created_from slots (k next) ws (S next)
  | _ => []
  end.

(** The same for a coroutine that starts before any semaphore exists. *)
Definition created {R : Type} (c : coro R) (ws : nat -> world) (next : nat)
    : list (coro unit) :=
  created_from 0 c ws next.

(** ** The progress bar *)

(** [pbar.n], 0 while there is no bar. *)
Definition completed (s : loop) : nat :=
  match pbar s with
  | Some (_, n) => n
  | None => 0%nat
  end.

(** A task whose done callbacks have all run. *)
Definition notified (t : task) : bool :=
  match callbacks t with
  | [] => true
  | _ :: _ => false
  end.

Definition mark (t : task) : nat := if notified t then 1%nat else 0%nat.

Definition count_notified (ts : list task) : nat := sum_list_with mark ts.

(** The code of [download_videos_in_channel] once the bar is open: it
    creates at most [b] more tasks, each an item's [sem_download]-like
    coroutine with the one callback [pbar.update(1)], and opens no other
    bar. *)
Fixpoint spawner {R : Type} (b : nat) (c : coro R) : Prop :=
  match c with
  | Ret _ | Raise _ | OutOfFuel => True
  | Vis e k => no_tqdm e = true /\ forall a, spawner b (k a)
  | CreateTask child cbs k =>
      match b with
      | O => False
      | S b' =>
          cbs = [PbarUpdate 1]
          /\ plain is_sem_item_event no_one child
          /\ forall i, spawner b' (k i)
      end
  end.

(** The same code before the bar is open: it creates no task, and the bar
    it opens has [total] as its total. *)
Fixpoint before_bar {R : Type} (total : nat) (c : coro R) : Prop :=
  match c with
  | Ret _ | Raise _ | OutOfFuel => True
  | Vis e k =>
      match e as e0 return (answer e0 -> coro R) -> Prop with
      | ETqdm t => fun k => t = total /\ forall a, spawner total (k a)
      | _ => fun k => forall a, before_bar total (k a)
      end k
  | CreateTask _ _ _ => False
  end.

(** An item task next to the bar: its one callback is pending, or it has
    run and the task is done. *)
Definition item_ok (t : task) : Prop :=
  plain is_sem_item_event no_one (code t)
  /\ (callbacks t = [PbarUpdate 1]
      \/ callbacks t = [] /\ is_done t = true).

(** The invariant of a run of [download_videos_in_channel] over [total]
    items: task 0 is the function itself, the others are its items. *)
Definition bar_inv (total : nat) (s : loop) : Prop :=
  exists (root : task) (items : list task),
    tasks s = root :: items
    /\ callbacks root = []
    /\ Forall item_ok items
    /\ (pbar s = None /\ items = [] /\ before_bar total (code root)
        \/ exists b : nat,
             pbar s = Some (total, count_notified items)
             /\ spawner b (code root)
             /\ (length items + b <= total)%nat).

(** The invariant of a semaphore of [cap] slots: the free slots and those
    held add up to [cap], and every task keeps the discipline. *)
Definition slot_inv (cap : nat) (s : loop) : Prop :=
  (sem s + sum_list_with holds (tasks s) = cap)%nat
  /\ Forall (fun t => disciplined (holds t) (code t)) (tasks s).

(** ** Concrete runs *)

(** A configuration with one channel whose listing has two items, run with
    [--max-concurrent 1]. *)
Definition two_items_config : json_config :=
  JsonConfig
    (Some [ChannelConfig (Some (py "https://www.youtube.com/c/Example")) None])
    (Some [py "downloads"]) None.

Definition two_items_world : world :=
  world_of (Answers (Json two_items_config) None
                    (inr (Some [Some (py "a"); Some (py "b")]))
                    (inr (Some (InfoDict []))) Completed None).

(** [main_async] runs up to its [gather] (task 0); [process_channel] lists
    the channel, creates both item tasks, each inside [async with
    semaphore], and reaches its own [gather] (task 1); then each item task
    (2 and 3) runs up to its first await, the fetch. Tasks are switched
    only where asyncio switches them: at an await. *)
Definition two_items_schedule : list (nat * world) :=
  replicate 7 (0%nat, two_items_world)
  ++ replicate 9 (1%nat, two_items_world)
  ++ [(2%nat, two_items_world); (3%nat, two_items_world)].

(** The command line of the two-item run. *)
Definition two_items_args : args := Args (py "config.json") 1 5.

(** The same configuration when every fetch fails: after the tasks are
    created as above, each item task makes its three attempts and logs its
    error line (tasks 2 and 3, ten steps each); [process_channel] gets
    through its [gather] and its last line, then [main_async] does. *)
Definition failing_items_world : world :=
  world_of (Answers (Json two_items_config) None
                    (inr (Some [Some (py "a"); Some (py "b")]))
                    (inr (Some (InfoDict []))) (DownloadRaised (py "boom")) None).

Definition failing_items_schedule : list (nat * world) :=
  replicate 7 (0%nat, failing_items_world)
  ++ replicate 9 (1%nat, failing_items_world)
  ++ replicate 10 (2%nat, failing_items_world)
  ++ replicate 10 (3%nat, failing_items_world)
  ++ replicate 2 (1%nat, failing_items_world)
  ++ replicate 2 (0%nat, failing_items_world).

(** One channel whose listing fails, [--rate-limit 0]. *)
Definition one_channel_config : json_config :=
  JsonConfig
    (Some [ChannelConfig (Some (py "https://www.youtube.com/c/Example")) None])
    (Some [py "downloads"]) None.

Definition listing_error : exn := External FromListing (py "HTTP Error 404").

Definition lister_fails_world : world :=
  world_of (Answers (Json one_channel_config) None (inl (py "HTTP Error 404"))
                    (inr (Some (InfoDict []))) Completed (Some listing_error)).

Definition lister_fails_args : args := Args (py "config.json") 3 0.

(** [main_async] runs up to its [gather]; [process_channel] logs, calls the
    lister and ends with its exception; [gather] raises it in
    [main_async]. *)
Definition lister_fails_schedule : list (nat * world) :=
  replicate 6 (0%nat, lister_fails_world)
  ++ replicate 2 (1%nat, lister_fails_world)
  ++ [(0%nat, lister_fails_world)].

(** A channel of two items, the first of which cannot be probed, run to
    its end with two slots. *)
Definition two_videos : list str := [py "a"; py "b"].

Definition two_videos_schedule : list (nat * world) :=
  replicate 4 (0%nat, calm)
  ++ [(1%nat, calm); (1%nat, calm); (1%nat, probe_fails (py "gone"));
      (1%nat, calm); (1%nat, calm); (1%nat, calm)]
  ++ replicate 7 (2%nat, calm)
  ++ replicate 2 (0%nat, calm).

(** A channel of three items run with two slots: the call creates its
    three tasks (task 0, five steps); the first two enter the semaphore
    and are suspended in their probe; the third finds no slot. *)
Definition three_videos : list str := [py "a"; py "b"; py "c"].

Definition in_flight_schedule : list (nat * world) :=
  replicate 5 (0%nat, calm)
  ++ replicate 2 (1%nat, calm)
  ++ replicate 2 (2%nat, calm).

(** Every task of the loop is confined. *)
Definition all_confined (Q : event -> bool) (T : exn -> Prop) (s : loop) : Prop :=
  Forall (fun t => confined Q T (code t)) (tasks s).

(** ** Further notions *)

(** A string of whitespace characters only. *)
Definition spaces (ws : str) : Prop := Forall (fun c => isspace c = true) ws.

(** The videos that [process_channel] gets from the lister in the run
    answered by [ws]: the lister runs after the first logger call; no
    videos if ["url"] is missing or the lister raised. *)
Definition listed_videos (channel_config : channel_config) (ws : nat -> world)
    : list str :=
  match cfg_url channel_config with
  | None => []
  | Some raw =>
      match (run (list_videos_in_channel (get_channel_url raw))
                 (fun n => ws (S n))).2 with
      | Returned video_urls => video_urls
      | _ => []
      end
  end.


(** A coroutine under a semaphore with no slot: the only semaphore it
    creates has the value 0, and, with all the tasks it creates, it gets to
    a probe, a fetch, a delay or the exit of an [async with] only after
    entering the semaphore. *)
Fixpoint stalled {R : Type} (c : coro R) : Prop :=
  match c with
  | Ret _ | Raise _ | OutOfFuel => True
  | Vis e k =>
      match e as e0 return (answer e0 -> coro R) -> Prop with
      | EAcquire => fun _ => True
      | ENewSemaphore value => fun k => value = 0%nat /\ forall a, stalled (k a)
      | ERelease => fun _ => False
      | ERunExtractMetadata _ => fun _ => False
      | ERunYtDlpDownload _ _ _ => fun _ => False
      | ESleep _ => fun _ => False
      | _ => fun k => forall a, stalled (k a)
      end k
  | CreateTask child _ k => stalled child /\ forall i, stalled (k i)
  end.

(** The message of the [ValueError] of [asyncio.Semaphore]. *)
Definition negative_semaphore : exn :=
  ValueError (py "Semaphore initial value must be >= 0").

(** The two-item configuration run with [--max-concurrent 0]: [main_async]
    runs up to its [gather] (task 0); [process_channel] lists the channel
    and gets to its first [async with semaphore] (task 1). *)
Definition zero_slots_schedule : list (nat * world) :=
  replicate 6 (0%nat, two_items_world) ++ replicate 3 (1%nat, two_items_world).

(** The loop with task [i] of [ts] at [c], not suspended, holding [h]
    slots, and the tasks [extra] created since. *)
Definition focus (i : nat) (ts : list task) (c : coro unit) (h : nat)
    (cbs : list callback) (extra : list task) (sm : nat)
    (pb : option (nat * nat)) (lg : list (level * str)) : loop :=
  Loop (<[i := Task c false h cbs]> ts ++ extra) sm pb lg.
(* The messages stay folded when coroutines are unfolded. *)
Arguments RETRY_LIMIT : simpl never.
Arguments attempt_failed_msg : simpl never.
Arguments retries_exhausted_msg : simpl never.
Arguments skipping_msg : simpl never.
Arguments failed_after_retries_msg : simpl never.
Arguments error_processing_msg : simpl never.
Arguments _run_yt_dlp_download : simpl never.

Arguments sleep_overflows : simpl never.
Arguments sleep_overflow : simpl never.
(** * Properties *)

(** ** The channel URL normalizer *)

Lemma startswith_app (p q : str) : startswith p (p ++ q) = true.
Proof.
  induction p as [|a p IH]; simpl; [reflexivity|].
  rewrite N.eqb_refl. exact IH.
Qed.

Lemma endswith_app (x suffix : str) : endswith suffix (x ++ suffix) = true.
Proof.
  unfold endswith. rewrite rev_app_distr. apply startswith_app.
Qed.

(** C8: the five table inputs of the normalizer give the stated outputs. *)
Theorem get_channel_url_table :
  get_channel_url (py "https://www.youtube.com/c/Example")
    = Some (py "https://www.youtube.com/c/Example/videos")
  /\ get_channel_url (py "https://www.youtube.com/c/Example/videos")
    = Some (py "https://www.youtube.com/c/Example/videos")
  /\ get_channel_url (py "UC1234567890")
    = Some (py "https://www.youtube.com/channel/UC1234567890/videos")
  /\ get_channel_url (py "@examplehandle")
    = Some (py "https://www.youtube.com/@examplehandle/videos")
  /\ get_channel_url (py "https://www.youtube.com/watch?v=abc123")
    = Some (py "https://www.youtube.com/watch?v=abc123").
Proof. repeat split; vm_compute; reflexivity. Qed.

(** C9: an identifier that, once trimmed, has no URL scheme, does not start
    with "UC" and contains no "@" makes [get_channel_url] return [None]:
    no fallback URL is built and no error is raised. *)
Theorem get_channel_url_unmatched (channel_identifier : str) :
  startswith_any [py "http://"; py "https://"] (strip channel_identifier) = false ->
  startswith (py "UC") (strip channel_identifier) = false ->
  contains (py "@") (strip channel_identifier) = false ->
  get_channel_url channel_identifier = None.
Proof.
  intros Hscheme Hid Hhandle. unfold get_channel_url.
  rewrite Hscheme, Hid, Hhandle. reflexivity.
Qed.

Lemma get_channel_url_unmatched_witness :
  get_channel_url (py " examplechannel ") = None.
Proof.
  apply (get_channel_url_unmatched (py " examplechannel "));
    vm_compute; reflexivity.
Defined.

(** C7, on the input "https://www.youtube.com/c/Example/videos/": it has a
    scheme and is no watch URL, yet the result is the input itself, which
    does not end with "/videos". The test in the code is that "/videos"
    occurs anywhere in the URL. *)
Theorem get_channel_url_videos_slash :
  let url := py "https://www.youtube.com/c/Example/videos/" in
  startswith_any [py "http://"; py "https://"] (strip url) = true
  /\ contains (py "youtube.com/watch?v=") (strip url) = false
  /\ get_channel_url url = Some url
  /\ endswith (py "/videos") url = false.
Proof. repeat split; vm_compute; reflexivity. Qed.

(** ** The retry executor, one item at a time *)

Section DownloadVideo.

Variables (video_url download_directory : str) (cookies_file : option str)
  (rate_limit : option Z).

(** The sleep of an attempt, on its own. *)
Lemma sleep_exc_None :
  sleep_exc rate_limit = None ->
  forall ws : nat -> world,
  run (match rate_limit with
       | Some delay => if truthy_int rate_limit then sleep delay else Ret tt
       | None => Ret tt
       end) ws = (after_success rate_limit, Returned tt).
Proof.
  unfold sleep_exc, after_success, sleep. intros H ws.
  destruct rate_limit as [delay|]; [|reflexivity].
  destruct (truthy_int (Some delay)); [|reflexivity].
  destruct (sleep_overflows delay); [discriminate|].
  cbn. destruct (ws O (ESleep delay)). reflexivity.
Qed.

Lemma sleep_exc_Some (exc : str) :
  sleep_exc rate_limit = Some exc ->
  match rate_limit with
  | Some delay => if truthy_int rate_limit then sleep delay else Ret tt
  | None => Ret tt
  end = Raise sleep_overflow /\ exc = exn_str sleep_overflow.
Proof.
  unfold sleep_exc, sleep.
  destruct rate_limit as [delay|]; [|discriminate].
  destruct (truthy_int (Some delay)); [|discriminate].
  destruct (sleep_overflows delay); [|discriminate].
  cbn. intros [= <-]. split; reflexivity.
Qed.

(** One pass through the loop: the attempt whose fetch ends with the first
    answer of the world. *)
Lemma download_video_loop_attempt (fuel tries : nat) (ws : nat -> world) :
  (tries < RETRY_LIMIT)%nat ->
  let r := ws O (ERunYtDlpDownload video_url download_directory cookies_file) in
  run (download_video_loop (S fuel) tries video_url download_directory
         cookies_file rate_limit) ws
  = match attempt_exc rate_limit r with
    | None =>
        (fetch_obs video_url download_directory cookies_file r
         :: after_success rate_limit, Returned tt)
    | Some exc =>
        let warning := log_obs WARNING (attempt_failed_msg (S tries) video_url exc) in
        if (RETRY_LIMIT <=? S tries)%nat
        then ([fetch_obs video_url download_directory cookies_file r; warning],
              Raised (DownloadError (retries_exhausted_msg video_url)))
        else
          let rest := run (download_video_loop fuel (S tries) video_url
                             download_directory cookies_file rate_limit)
                          (fun n => ws (S (S n))) in
          (fetch_obs video_url download_directory cookies_file r :: warning
           :: rest.1, rest.2)
    end.
Proof.
  intros Hlt r. cbn [download_video_loop].
  destruct (Nat.ltb_spec tries RETRY_LIMIT) as [_|]; [|lia].
  unfold mbind, coro_bind, run_in_executor_download, attempt_exc.
  cbn [bind try_except run]. fold r. rewrite Nat.add_1_r.
  destruct (fetch_exc r) as [exc|] eqn:Hr; cbn [bind try_except exn_str].
  - (* the fetch raised *)
    unfold log, perform. cbn [bind run].
    destruct (ws 1%nat (ELog WARNING (attempt_failed_msg (S tries) video_url exc))).
    destruct (RETRY_LIMIT <=? S tries)%nat; cbn [bind run]; [reflexivity|].
    destruct (run _ (fun n => ws (S (S n)))) as [tr o]. reflexivity.
  - destruct (sleep_exc rate_limit) as [exc|] eqn:Hs.
    + (* the sleep raised *)
      destruct (sleep_exc_Some exc Hs) as [-> ->].
      cbn [bind try_except]. unfold log, perform. cbn [bind run].
      destruct (ws 1%nat (ELog WARNING
                  (attempt_failed_msg (S tries) video_url (exn_str sleep_overflow)))).
      destruct (RETRY_LIMIT <=? S tries)%nat; cbn [bind run]; [reflexivity|].
      destruct (run _ (fun n => ws (S (S n)))) as [tr o]. reflexivity.
    + (* the attempt succeeded *)
      pose proof (sleep_exc_None Hs) as Hsleep.
      revert Hsleep. unfold after_success, sleep.
      destruct rate_limit as [delay|]; [|intros _; reflexivity].
      destruct (truthy_int (Some delay)); [|intros _; reflexivity].
      unfold sleep_exc in Hs. 
      destruct (sleep_overflows delay) eqn:Ho.
      { destruct (truthy_int (Some delay)); discriminate || idtac.
        intros H. specialize (H ws). cbn in H. discriminate. }
      intros _. unfold perform. cbn [bind try_except run].
      destruct (ws 1%nat (ESleep delay)). reflexivity.
Qed.

End DownloadVideo.

Section DownloadVideoRuns.

Variables (video_url download_directory : str) (cookies_file : option str)
  (rate_limit : option Z).

(** The loop entered with [tries < RETRY_LIMIT] failed attempts and fuel
    for the remaining ones either has some more failed attempts, then a
    successful one and returns, or fails until the limit and raises. *)
Lemma download_video_loop_run (fuel : nat) :
  forall (tries : nat) (ws : nat -> world),
  (tries < RETRY_LIMIT)%nat -> (RETRY_LIMIT <= tries + fuel)%nat ->
  exists rs : list fetch_result,
    Forall (lost rate_limit) rs /\
    ((tries + length rs < RETRY_LIMIT)%nat /\
     sleep_exc rate_limit = None /\
     run (download_video_loop fuel tries video_url download_directory
            cookies_file rate_limit) ws
     = (failed_attempts video_url download_directory cookies_file rate_limit
          tries rs
        ++ fetch_obs video_url download_directory cookies_file Completed
           :: after_success rate_limit,
        Returned tt)
     \/
     (tries + length rs = RETRY_LIMIT)%nat /\
     run (download_video_loop fuel tries video_url download_directory
            cookies_file rate_limit) ws
     = (failed_attempts video_url download_directory cookies_file rate_limit
          tries rs,
        Raised (DownloadError (retries_exhausted_msg video_url)))).
Proof.
  induction fuel as [|fuel IH]; intros tries ws Hlt Hle; [lia|].
  rewrite download_video_loop_attempt by exact Hlt. cbv zeta.
  set (r := ws O (ERunYtDlpDownload video_url download_directory cookies_file)).
  destruct (attempt_exc rate_limit r) as [exc|] eqn:Hr.
  - (* the attempt failed *)
    assert (lost rate_limit r) as Hlost by (unfold lost; rewrite Hr; eauto).
    destruct (Nat.leb_spec RETRY_LIMIT (S tries)) as [Hmax|Hmore].
    + exists [r]. split; [repeat constructor; exact Hlost|].
      right. split; [simpl; lia|]. cbn [failed_attempts]. rewrite Hr. reflexivity.
    + destruct (IH (S tries) (fun n => ws (S (S n))) Hmore ltac:(lia))
        as (rs & Hrs & Hrun).
      exists (r :: rs). split; [constructor; [exact Hlost|exact Hrs]|].
      destruct Hrun as [(Hn & Hs & Hrun)|[Hn Hrun]]; [left|right];
        (split; [simpl; lia|]); [split; [exact Hs|]|];
        rewrite Hrun; cbn [fst snd failed_attempts app]; rewrite Hr; reflexivity.
  - (* the attempt succeeded *)
    unfold attempt_exc in Hr.
    destruct (fetch_exc r) eqn:Hf; [discriminate|].
    assert (r = Completed) as -> by (destruct r; simpl in Hf; congruence).
    exists []. split; [constructor|]. left. split; [simpl; lia|].
    split; [exact Hr|reflexivity].
Qed.

Lemma worker_lines_info (lvl : level) (url : str) (cookies : option str)
    (r : fetch_result) :
  lvl <> INFO -> at_level lvl (_run_yt_dlp_download url cookies r) = [].
Proof.
  intros Hlvl. unfold _run_yt_dlp_download.
  destruct cookies as [f|]; [destruct (truthy_str (Some f))|];
    destruct r, lvl; try congruence; reflexivity.
Qed.

Lemma at_level_fetch_obs (lvl : level) (r : fetch_result) :
  lvl <> INFO ->
  at_level lvl
    (logged_lines [fetch_obs video_url download_directory cookies_file r]) = [].
Proof.
  intros Hlvl. cbn [logged_lines flat_map]. rewrite app_nil_r.
  apply (worker_lines_info lvl video_url cookies_file r Hlvl).
Qed.

Lemma at_level_app (lvl : level) (xs ys : list (level * str)) :
  at_level lvl (xs ++ ys) = at_level lvl xs ++ at_level lvl ys.
Proof. apply omap_app. Qed.

Lemma fetches_failed_attempts (tries : nat) (rs : list fetch_result) :
  fetches (failed_attempts video_url download_directory cookies_file rate_limit
             tries rs) = rs.
Proof.
  revert tries. induction rs as [|r rs IH]; intros tries; [reflexivity|].
  cbn. f_equal. apply IH.
Qed.

Lemma sleeps_failed_attempts (tries : nat) (rs : list fetch_result) :
  sleeps (failed_attempts video_url download_directory cookies_file rate_limit
            tries rs) = [].
Proof.
  revert tries. induction rs as [|r rs IH]; intros tries; [reflexivity|].
  cbn. apply IH.
Qed.

Lemma probes_failed_attempts (tries : nat) (rs : list fetch_result) :
  probes (failed_attempts video_url download_directory cookies_file rate_limit
            tries rs) = 0%nat.
Proof.
  revert tries. induction rs as [|r rs IH]; intros tries; [reflexivity|].
  apply (IH (S tries)).
Qed.

Lemma warnings_failed_attempts (tries : nat) (rs : list fetch_result) :
  at_level WARNING
    (logged_lines (failed_attempts video_url download_directory cookies_file
                     rate_limit tries rs))
  = attempt_warnings video_url rate_limit tries rs.
Proof.
  revert tries. induction rs as [|r rs IH]; intros tries; [reflexivity|].
  cbn [failed_attempts logged_lines flat_map attempt_warnings].
  rewrite at_level_app.
  change (lines_of (fetch_obs video_url download_directory cookies_file r))
    with (_run_yt_dlp_download video_url cookies_file r).
  rewrite worker_lines_info by discriminate.
  cbn. f_equal. apply IH.
Qed.

Lemma errors_failed_attempts (tries : nat) (rs : list fetch_result) :
  at_level ERROR
    (logged_lines (failed_attempts video_url download_directory cookies_file
                     rate_limit tries rs)) = [].
Proof.
  revert tries. induction rs as [|r rs IH]; intros tries; [reflexivity|].
  cbn [failed_attempts logged_lines flat_map].
  rewrite at_level_app.
  change (lines_of (fetch_obs video_url download_directory cookies_file r))
    with (_run_yt_dlp_download video_url cookies_file r).
  rewrite worker_lines_info by discriminate.
  cbn. apply IH.
Qed.

Lemma length_failed_attempts (tries : nat) (rs : list fetch_result) :
  length (failed_attempts video_url download_directory cookies_file rate_limit
            tries rs) = (2 * length rs)%nat.
Proof.
  revert tries. induction rs as [|r rs IH]; intros tries; [reflexivity|].
  cbn [failed_attempts length]. rewrite IH. lia.
Qed.

(** [download_video] as a whole. *)
Lemma download_video_run (ws : nat -> world) :
  exists rs : list fetch_result,
    Forall (lost rate_limit) rs /\
    ((length rs < RETRY_LIMIT)%nat /\
     sleep_exc rate_limit = None /\
     run (download_video video_url download_directory cookies_file rate_limit) ws
     = (failed_attempts video_url download_directory cookies_file rate_limit 0 rs
        ++ fetch_obs video_url download_directory cookies_file Completed
           :: after_success rate_limit,
        Returned tt)
     \/
     length rs = RETRY_LIMIT /\
     run (download_video video_url download_directory cookies_file rate_limit) ws
     = (failed_attempts video_url download_directory cookies_file rate_limit 0 rs,
        Raised (DownloadError (retries_exhausted_msg video_url)))).
Proof.
  unfold download_video.
  destruct (download_video_loop_run RETRY_LIMIT 0 ws) as (rs & Hrs & H).
  - unfold RETRY_LIMIT. lia.
  - lia.
  - exists rs. split; [exact Hrs|exact H].
Qed.

(** An attempt whose sleep cannot raise fails exactly when its fetch does;
    when the sleep raises, every attempt fails. *)
Lemma lost_failed (r : fetch_result) :
  sleep_exc rate_limit = None -> (lost rate_limit r <-> failed r).
Proof. unfold lost, failed, attempt_exc. intros ->. destruct (fetch_exc r); split; intros [x H]; try discriminate; eauto. Qed.

Lemma lost_always (exc : str) (r : fetch_result) :
  sleep_exc rate_limit = Some exc -> lost rate_limit r.
Proof. unfold lost, attempt_exc. intros ->. destruct (fetch_exc r); eauto. Qed.

Lemma after_success_quiet :
  fetches (after_success rate_limit) = []
  /\ probes (after_success rate_limit) = 0%nat
  /\ logged_lines (after_success rate_limit) = [].
Proof.
  unfold after_success.
  destruct rate_limit as [d|]; [destruct (truthy_int (Some d))|];
    split_and!; reflexivity.
Qed.

End DownloadVideoRuns.

Lemma sleeps_app (tr tr' : list obs) : sleeps (tr ++ tr') = sleeps tr ++ sleeps tr'.
Proof. apply omap_app. Qed.

Lemma fetches_app (tr tr' : list obs) :
  fetches (tr ++ tr') = fetches tr ++ fetches tr'.
Proof. apply omap_app. Qed.

Lemma logged_lines_app (tr tr' : list obs) :
  logged_lines (tr ++ tr') = logged_lines tr ++ logged_lines tr'.
Proof. apply flat_map_app. Qed.


Lemma sleep_exc_large (delay : Z) :
  sleep_overflows delay = true ->
  sleep_exc (Some delay) = Some (exn_str sleep_overflow).
Proof.
  unfold sleep_exc, sleep_overflows, truthy_int. intros H. rewrite H.
  apply Z.leb_le in H. destruct (Z.eqb_spec delay 0) as [->|]; [|reflexivity].
  exfalso. revert H. apply Z.lt_nge. reflexivity.
Qed.



(** The delay 2^1024, which [asyncio.sleep] refuses. *)
Example sleep_overflows_huge : sleep_overflows (2 ^ 1024) = true.
Proof. vm_compute. reflexivity. Qed.


Example download_video_all_fail :
  let r := run (download_video (py "u") (py "d") None (Some 5%Z))
             (fun _ => fetch_fails (py "boom")) in
  length (fetches r.1) = 3%nat /\ sleeps r.1 = []
  /\ r.2 = Raised (DownloadError (py "Failed to download u after 3 retries."))
  /\ at_level WARNING (logged_lines r.1)
     = [py "Download attempt 1 for u failed: boom";
        py "Download attempt 2 for u failed: boom";
        py "Download attempt 3 for u failed: boom"].
Proof. vm_compute. repeat split. Qed.

Example download_video_second_try :
  let ws := fun n => match n with O => fetch_fails (py "boom") | _ => calm end in
  let r := run (download_video (py "u") (py "d") None (Some 5%Z)) ws in
  fetches r.1 = [DownloadRaised (py "boom"); Completed]
  /\ sleeps r.1 = [5%Z] /\ r.2 = Returned tt.
Proof. vm_compute. repeat split. Qed.

Example download_video_sleep_overflows :
  let r := run (download_video (py "u") (py "d") None (Some (2 ^ 1024)%Z))
             (fun _ => calm) in
  fetches r.1 = [Completed; Completed; Completed] /\ sleeps r.1 = []
  /\ r.2 = Raised (DownloadError (py "Failed to download u after 3 retries."))
  /\ at_level WARNING (logged_lines r.1)
     = [py "Download attempt 1 for u failed: int too large to convert to float";
        py "Download attempt 2 for u failed: int too large to convert to float";
        py "Download attempt 3 for u failed: int too large to convert to float"].
Proof. vm_compute. repeat split. Qed.




(** ** The metadata gate of [sem_download] *)

(** [fetch_video_metadata] never raises: it returns the metadata or [None]. *)
Lemma fetch_video_metadata_returns (url : str) (ws : nat -> world) :
  exists metadata, (run (fetch_video_metadata url) ws).2 = Returned metadata.
Proof.
  cbn. destruct (ws O (ERunExtractMetadata url)) as [exc|metadata]; cbn; eauto.
Qed.

(** C4: when the probe of an item fails, that is [fetch_video_metadata]
    returns [None], [sem_download] enters the semaphore, probes, logs the
    warning "Skipping download (metadata fetch failed): <url>", leaves the
    semaphore and returns: no fetch is attempted, nothing is logged at
    error level, and no exception leaves the coroutine. The probe itself
    never raises. *)
Theorem sem_download_skips_unprobeable (download_dir : str)
    (rate_limit : option Z) (video_url : str) (ws : nat -> world) :
  (run (fetch_video_metadata video_url) (fun n => ws (S n))).2 = Returned None ->
  let tr := (run (sem_download download_dir rate_limit video_url) ws).1 in
  let out := (run (sem_download download_dir rate_limit video_url) ws).2 in
  out = Returned tt
  /\ tr = [existT EAcquire tt;
           existT (ERunExtractMetadata video_url)
                  (ws 1%nat (ERunExtractMetadata video_url));
           existT (ELog WARNING (skipping_msg video_url)) tt;
           existT ERelease tt]
  /\ fetches tr = []
  /\ probes tr = 1%nat
  /\ at_level WARNING (logged_lines tr) = [skipping_msg video_url]
  /\ at_level ERROR (logged_lines tr) = []
  /\ skipping_msg video_url
     = py "Skipping download (metadata fetch failed): " ++ video_url
  /\ (forall ws' : nat -> world,
        exists metadata,
          (run (fetch_video_metadata video_url) ws').2 = Returned metadata).
Proof.
  intros Hprobe tr out. subst tr out.
  assert (run (sem_download download_dir rate_limit video_url) ws
          = ([existT EAcquire tt;
              existT (ERunExtractMetadata video_url)
                     (ws 1%nat (ERunExtractMetadata video_url));
              existT (ELog WARNING (skipping_msg video_url)) tt;
              existT ERelease tt], Returned tt)) as Hrun.
  { cbn in Hprobe |- *.
    destruct (ws O EAcquire).
    destruct (ws 1%nat (ERunExtractMetadata video_url)) as [exc|[metadata|]];
      cbn in Hprobe |- *; try discriminate;
      destruct (ws 2%nat (ELog WARNING (skipping_msg video_url)));
      destruct (ws 3%nat ERelease); reflexivity. }
  rewrite Hrun. cbn [fst snd].
  split_and!; try reflexivity.
  intros ws'. apply fetch_video_metadata_returns.
Qed.

Lemma sem_download_skips_unprobeable_witness :
  (run (sem_download (py "dir") None (py "v")) (fun _ => probe_fails (py "gone"))).2
    = Returned tt
  /\ fetches (run (sem_download (py "dir") None (py "v"))
                (fun _ => probe_fails (py "gone"))).1 = [].
Proof.
  pose proof (sem_download_skips_unprobeable (py "dir") None (py "v")
                (fun _ => probe_fails (py "gone")) eq_refl)
    as (Hout & _ & Hfetch & _).
  split; [exact Hout|exact Hfetch].
Defined.

(** ** Runs of the event loop *)

Lemma reachable_trans (s0 s1 s2 : loop) :
  reachable s0 s1 -> reachable s1 s2 -> reachable s0 s2.
Proof.
  intros H01 H12. induction H12 as [|s i w s' _ IH Hstep]; [exact H01|].
  exact (reach_step s0 s i w s' IH Hstep).
Qed.

Lemma run_loop_reachable (schedule : list (nat * world)) :
  forall s0 s, run_loop schedule s0 = Some s -> reachable s0 s.
Proof.
  induction schedule as [|[i w] rest IH]; intros s0 s Hrun; simpl in Hrun.
  - injection Hrun as <-. constructor.
  - destruct (step i w s0) as [s1|] eqn:Hstep; [|discriminate].
    apply (reachable_trans s0 s1 s); [|exact (IH s1 s Hrun)].
    exact (reach_step s0 s0 i w s1 (reach_refl s0) Hstep).
Qed.

(** *** The wired path does not bound the items in flight *)

(** C1, on the wired path: with [--max-concurrent 1] and a channel of two
    items, the run reaches a state in which both items are suspended in
    their fetch at the same time, while the semaphore's counter is back at
    1 and no task holds a slot: [process_channel] leaves the semaphore as
    soon as the task is created. *)
Theorem process_channel_exceeds_max_concurrent :
  exists s : loop,
    reachable (boot (main two_items_args)) s
    /\ in_flight_count s = 2%nat
    /\ sem s = 1%nat
    /\ Forall (fun t => holds t = 0%nat) (tasks s).
Proof.
  destruct (run_loop two_items_schedule
              (boot (main two_items_args))) as [s|] eqn:Hrun;
    [|vm_compute in Hrun; discriminate].
  exists s. split; [exact (run_loop_reachable _ _ _ Hrun)|].
  assert (Some (in_flight_count s, sem s, map holds (tasks s))
          = Some (2%nat, 1%nat, [0; 0; 0; 0]%nat)) as H.
  { change (Some (in_flight_count s, sem s, map holds (tasks s)))
      with ((fun s => (in_flight_count s, sem s, map holds (tasks s))) <$> Some s).
    rewrite <- Hrun. vm_compute. reflexivity. }
  injection H as Hcount Hsem Hholds.
  split; [exact Hcount|]. split; [exact Hsem|].
  apply Forall_forall. intros t Ht.
  assert (In (holds t) (map holds (tasks s))) as Hin
    by (apply in_map, list_elem_of_In; exact Ht).
  rewrite Hholds in Hin. simpl in Hin. intuition congruence.
Qed.

(** *** Steps, case by case *)

Lemma existsb_gather (s : loop) (x : exn) (ids : list nat) :
  existsb (fun id => from_option (raised x) false (tasks s !! id)) ids = true ->
  exists id t, In id ids /\ tasks s !! id = Some t /\ code t = Raise x.
Proof.
  intros H. apply existsb_exists in H as (id & Hin & Hid).
  destruct (tasks s !! id) as [t|] eqn:Ht; [|discriminate].
  exists id, t. split; [exact Hin|]. split; [exact Ht|].
  simpl in Hid. unfold raised in Hid.
  destruct (code t) as [|e'| | |]; try discriminate.
  apply bool_decide_eq_true in Hid. congruence.
Qed.

Lemma forallb_gather (s : loop) (ids : list nat) :
  forallb (fun id => from_option returned false (tasks s !! id)) ids = true ->
  forall id, In id ids -> exists t, tasks s !! id = Some t /\ returned t = true.
Proof.
  intros H id Hin. rewrite forallb_forall in H. specialize (H id Hin).
  destruct (tasks s !! id) as [t|]; [|discriminate]. eauto.
Qed.

Lemma step_inv (i : nat) (w : world) (s s' : loop) :
  step i w s = Some s' ->
  exists t, tasks s !! i = Some t /\ step_case i s s' t.
Proof.
  unfold step. destruct (tasks s !! i) as [t|] eqn:Hi; [|discriminate].
  intros Hstep. exists t. split; [reflexivity|].
  destruct (code t) as [r|x| |e k|child cbs k] eqn:Hc.
  - destruct (callbacks t) as [|[n] rest] eqn:Hcb; [discriminate|].
    injection Hstep as <-.
    apply (case_callback i s _ t n rest); [unfold is_done; rewrite Hc| |]; congruence.
  - destruct (callbacks t) as [|[n] rest] eqn:Hcb; [discriminate|].
    injection Hstep as <-.
    apply (case_callback i s _ t n rest); [unfold is_done; rewrite Hc| |]; congruence.
  - discriminate.
  - destruct e; cbn [step_event] in Hstep; unfold await in Hstep;
      try (destruct (waiting t) eqn:Hw; injection Hstep as <-;
           [|apply (case_suspend i s _ t _ k Hc eq_refl Hw eq_refl)]);
      try (injection Hstep as <-).
    + apply (case_event i s _ t _ k tt Hc); try done.
    + apply (case_event i s _ t _ k (w (EReadConfig path)) Hc); try done.
      unfold resume, proceed. cbn. rewrite app_nil_r. reflexivity.
    + apply (case_event i s _ t _ k (w ESetupLogger) Hc); try done.
      unfold resume, proceed. cbn. rewrite app_nil_r. reflexivity.
    + apply (case_event i s _ t _ k (w (EExtractInfoFlat url)) Hc); try done.
      unfold resume, proceed. cbn. rewrite app_nil_r. reflexivity.
    + apply (case_event i s _ t _ k (w (ERunExtractMetadata url)) Hc); try done.
      unfold resume, proceed. cbn. rewrite app_nil_r. reflexivity.
    + apply (case_event i s _ t _ k (w (ERunYtDlpDownload url dir cookies)) Hc);
        try done.
    + apply (case_event i s _ t _ k tt Hc); try done.
      unfold resume, proceed. cbn. rewrite app_nil_r. reflexivity.
    + apply (case_event i s _ t _ k tt Hc); try done.
      unfold resume, proceed, set_sem. cbn. rewrite app_nil_r. reflexivity.
    + destruct (Nat.ltb_spec 0 (sem s)) as [Hsem|]; [|discriminate].
      injection Hstep as <-.
      apply (case_event i s _ t _ k tt Hc); try done.
      unfold proceed, set_sem. cbn. rewrite app_nil_r. reflexivity.
    + apply (case_event i s _ t _ k tt Hc); try done.
      unfold proceed, set_sem. cbn. rewrite app_nil_r. reflexivity.
    + destruct (w (EGather ids)) as [x|] eqn:Hw.
      * destruct (existsb _ ids) eqn:Hex; [|discriminate].
        injection Hstep as <-.
        apply (case_event i s _ t _ k (Some x) Hc); try done.
        -- exact (existsb_gather s x ids Hex).
        -- unfold resume, proceed. cbn. rewrite app_nil_r. reflexivity.
      * destruct (forallb _ ids) eqn:Hall; [|discriminate].
        injection Hstep as <-.
        apply (case_event i s _ t _ k None Hc); try done.
        -- exact (forallb_gather s ids Hall).
        -- unfold resume, proceed. cbn. rewrite app_nil_r. reflexivity.
    + apply (case_event i s _ t _ k tt Hc); try done.
      unfold resume, proceed, set_pbar. cbn. rewrite app_nil_r. reflexivity.
    + apply (case_event i s _ t _ k tt Hc); try done.
      unfold resume, proceed. cbn. rewrite app_nil_r. reflexivity.
  - injection Hstep as <-. apply (case_create i s _ t child cbs k Hc). reflexivity.
Qed.

(** *** Coroutine trees under sequencing and handlers *)

Lemma plain_mono (Q Q' : event -> bool) (T T' : exn -> Prop) :
  (forall e, Q e = true -> Q' e = true) -> (forall x, T x -> T' x) ->
  forall (R : Type) (c : coro R), plain Q T c -> plain Q' T' c.
Proof.
  intros HQ HT R c. induction c as [R r|R x|R|R e k IH|R child IHc cbs k IH];
    cbn; auto.
  intros [He Hk]. split; [auto|]. intros a. apply IH, Hk.
Qed.

Lemma plain_bind (Q : event -> bool) (T : exn -> Prop) (A B : Type)
    (c : coro A) (f : A -> coro B) :
  plain Q T c -> (forall r, plain Q T (f r)) -> plain Q T (bind c f).
Proof.
  revert B f.
  induction c as [R r|R x|R|R e k IH|R child IHc cbs k IH]; intros B f; cbn; auto.
  - intros [He Hk] Hf. split; [exact He|]. intros a. apply IH; auto.
Qed.

Lemma plain_try_except (Q : event -> bool) (T0 T : exn -> Prop) (A : Type)
    (c : coro A) (handler : exn -> coro A) :
  plain Q T0 c -> (forall x, T0 x -> plain Q T (handler x)) ->
  plain Q T (try_except c handler).
Proof.
  revert handler.
  induction c as [R r|R x|R|R e k IH|R child IHc cbs k IH]; intros handler;
    cbn; auto.
  - intros [He Hk] Hh. split; [exact He|]. intros a. apply IH; auto.
Qed.

Lemma plain_confined (Q : event -> bool) (T : exn -> Prop) (R : Type)
    (c : coro R) :
  plain Q T c -> confined Q T c.
Proof.
  induction c as [R r|R x|R|R e k IH|R child IHc cbs k IH]; cbn; auto.
  - intros [He Hk]. split; [exact He|]. intros a _. apply IH, Hk.
  - intros [].
Qed.

Lemma confined_events (Q Q' : event -> bool) (T : exn -> Prop) :
  (forall e, Q e = true -> Q' e = true) ->
  forall (R : Type) (c : coro R), confined Q T c -> confined Q' T c.
Proof.
  intros HQ R c. induction c as [R r|R x|R|R e k IH|R child IHc cbs k IH];
    cbn; auto.
  - intros [He Hk]. split; [auto|]. intros a Ha. apply IH, Hk, Ha.
  - intros [Hc Hk]. split; [auto|]. intros i. apply IH, Hk.
Qed.

Lemma confined_bind (Q : event -> bool) (T : exn -> Prop) (A B : Type)
    (c : coro A) (f : A -> coro B) :
  confined Q T c -> (forall r, confined Q T (f r)) -> confined Q T (bind c f).
Proof.
  revert B f.
  induction c as [R r|R x|R|R e k IH|R child IHc cbs k IH]; intros B f; cbn; auto.
  - intros [He Hk] Hf. split; [exact He|]. intros a Ha. apply IH; auto.
  - intros [Hc Hk] Hf. split; [exact Hc|]. intros i. apply IH; auto.
Qed.

Lemma confined_finally (Q : event -> bool) (T : exn -> Prop) (A : Type)
    (c : coro A) (cleanup : coro unit) :
  confined Q T c -> confined Q T cleanup -> confined Q T (finally c cleanup).
Proof.
  induction c as [R r|R x|R|R e k IH|R child IHc cbs k IH]; cbn; auto.
  - intros _ Hc. apply confined_bind; [exact Hc|]. intros _. exact I.
  - intros Hx Hc. apply confined_bind; [exact Hc|]. intros _. exact Hx.
  - intros [He Hk] Hc. split; [exact He|]. intros a Ha. apply IH; auto.
  - intros [Hch Hk] Hc. split; [exact Hch|]. intros i. apply IH; auto.
Qed.

Lemma confined_perform (Q : event -> bool) (T : exn -> Prop) (e : event) :
  Q e = true -> confined Q T (perform e).
Proof. intros He. cbn. split; [exact He|]. intros _ _. exact I. Qed.

Lemma confined_gather (Q : event -> bool) (T : exn -> Prop) (ids : list nat) :
  Q (EGather ids) = true -> confined Q T (gather ids).
Proof.
  intros He. cbn. split; [exact He|]. intros [x|] Ha; cbn; [exact Ha|exact I].
Qed.

(** *** The retry executor as a tree *)

(** The loop has fuel for its remaining attempts; it performs fetches,
    sleeps and logger calls, and only [DownloadError] leaves it. *)
Lemma download_video_loop_plain (fuel : nat) :
  forall (tries : nat) (video_url download_directory : str)
         (cookies_file : option str) (rate_limit : option Z),
  (tries < RETRY_LIMIT)%nat -> (RETRY_LIMIT <= tries + fuel)%nat ->
  plain is_fetch_stage is_download_error
    (download_video_loop fuel tries video_url download_directory cookies_file
       rate_limit).
Proof.
  induction fuel as [|fuel IH]; intros tries url dir cookies rate Hlt Hle;
    cbn [download_video_loop]; [lia|].
  destruct (tries <? RETRY_LIMIT)%nat; [|exact I].
  unfold mbind, coro_bind, run_in_executor_download, log, perform.
  cbn [bind try_except plain]. split; [reflexivity|]. intros a.
  assert (forall exc : str,
            plain is_fetch_stage is_download_error
              (Vis (ELog WARNING (attempt_failed_msg (tries + 1) url exc))
                 (fun _ =>
                    bind (bind (Ret tt)
                            (fun _ =>
                               if (RETRY_LIMIT <=? tries + 1)%nat
                               then Raise (DownloadError (retries_exhausted_msg url))
                               else Ret false))
                      (fun returned : bool =>
                         if returned then Ret tt
                         else download_video_loop fuel (tries + 1) url dir
                                cookies rate)))) as Hfail.
  { intros exc. cbn [bind plain]. split; [reflexivity|]. intros _.
    destruct (Nat.leb_spec RETRY_LIMIT (tries + 1)) as [|Hmore]; cbn [bind plain].
    - eexists. reflexivity.
    - apply IH; lia. }
  destruct (fetch_exc a) as [exc|]; cbn [bind try_except exn_str];
    [apply Hfail|].
  destruct rate as [d|]; [|exact I].
  destruct (truthy_int (Some d)); [|exact I].
  unfold sleep. destruct (sleep_overflows d); cbn [bind try_except].
  - apply Hfail.
  - cbn [plain]. split; [reflexivity|]. intros _. exact I.
Qed.

Lemma download_video_plain (video_url download_directory : str)
    (cookies_file : option str) (rate_limit : option Z) :
  plain is_fetch_stage is_download_error
    (download_video video_url download_directory cookies_file rate_limit).
Proof.
  unfold download_video. apply download_video_loop_plain; unfold RETRY_LIMIT; lia.
Qed.

(** [download_video_with_retries] performs only fetches, sleeps and logger
    calls, and no exception leaves it. *)
Lemma download_video_with_retries_plain (video_url download_directory : str)
    (cookies_file : option str) (rate_limit : option Z) :
  plain is_fetch_stage no_one
    (download_video_with_retries video_url download_directory cookies_file
       rate_limit).
Proof.
  unfold download_video_with_retries.
  apply (plain_try_except is_fetch_stage is_download_error no_one).
  - apply download_video_plain.
  - intros x [msg ->]. cbn. auto.
Qed.

(** [sem_download] between entering and leaving the semaphore: only the
    probe, fetches, sleeps and logger calls, and no exception. *)
Lemma sem_download_body_plain (download_dir : str) (rate_limit : option Z)
    (video_url : str) :
  plain is_item_event no_one
    (metadata ← fetch_video_metadata video_url;
     match metadata with
     | None => log WARNING (skipping_msg video_url)
     | Some _ =>
         try_except (download_video video_url download_dir None rate_limit)
           (fun e =>
              match e with
              | DownloadError _ => log ERROR (exn_str e)
              | _ => Raise e
              end)
     end).
Proof.
  unfold mbind, coro_bind. apply plain_bind.
  - cbn. split; [reflexivity|]. intros [exc|metadata]; exact I.
  - intros [metadata|]; [|cbn; auto].
    apply (plain_try_except is_item_event is_download_error no_one).
    + apply (plain_mono is_fetch_stage is_item_event is_download_error
               is_download_error); [|auto|apply download_video_plain].
      intros e. destruct e; cbn; congruence.
    + intros x [msg ->]. cbn. auto.
Qed.

Lemma plain_finally (Q : event -> bool) (T : exn -> Prop) (A : Type)
    (c : coro A) (cleanup : coro unit) :
  plain Q T c -> plain Q T cleanup -> plain Q T (finally c cleanup).
Proof.
  induction c as [R r|R x|R|R e k IH|R child IHc cbs k IH]; cbn; auto.
  - intros _ Hc. apply plain_bind; [exact Hc|]. intros _. exact I.
  - intros Hx Hc. apply plain_bind; [exact Hc|]. intros _. exact Hx.
  - intros [He Hk] Hc. split; [exact He|]. intros a. apply IH; auto.
Qed.

(** [sem_download] as a whole. *)
Lemma sem_download_plain (download_dir : str) (rate_limit : option Z)
    (video_url : str) :
  plain is_sem_item_event no_one (sem_download download_dir rate_limit video_url).
Proof.
  unfold sem_download, async_with_semaphore. cbn [plain].
  split; [reflexivity|]. intros _. apply plain_finally.
  - apply (plain_mono is_item_event is_sem_item_event no_one no_one);
      [|auto|apply sem_download_body_plain].
    intros e. destruct e; cbn; congruence.
  - cbn. auto.
Qed.

(** A plain coroutine on its own: it returns or raises within [T], and its
    events satisfy [Q]. *)
Lemma plain_run (Q : event -> bool) (T : exn -> Prop) (R : Type) (c : coro R) :
  plain Q T c ->
  forall ws : nat -> world,
    Forall (fun o => Q (projT1 o) = true) (run c ws).1
    /\ match (run c ws).2 with
       | Returned _ => True
       | Raised x => T x
       | Exhausted | Forked => False
       end.
Proof.
  induction c as [R r|R x|R|R e k IH|R child IHc cbs k IH]; cbn [plain run].
  - intros _ ws. split; [constructor|exact I].
  - intros Hx ws. split; [constructor|exact Hx].
  - intros [].
  - intros [He Hk] ws.
    destruct (IH (ws O e) (Hk (ws O e)) (fun n => ws (S n))) as [Hev Hout].
    destruct (run (k (ws O e)) (fun n => ws (S n))) as [tr o]. cbn in *.
    split; [constructor; [exact He|exact Hev]|exact Hout].
  - intros [].
Qed.

(** *** The wired path as a tree *)

Ltac unfold_bind := unfold mbind, coro_bind.

Ltac leaf :=
  cbn [confined]; unfold not_item_failure; cbn [item_failure];
  first [intros [] | exact I].

Lemma log_confined (Q : event -> bool) (T : exn -> Prop) (lvl : level)
    (msg : str) :
  Q (ELog lvl msg) = true -> confined Q T (log lvl msg).
Proof. apply confined_perform. Qed.

Lemma wired_item_confined (video_url download_directory : str)
    (cookies_file : option str) (rate_limit : option Z) :
  confined wired_event not_item_failure
    (download_video_with_retries video_url download_directory cookies_file
       rate_limit).
Proof.
  apply plain_confined.
  apply (plain_mono is_fetch_stage wired_event no_one not_item_failure).
  - intros e. destruct e; cbn; congruence.
  - intros x [].
  - apply download_video_with_retries_plain.
Qed.

Lemma create_downloads_confined (video_urls : list str) :
  forall (download_directory : str) (cookies_file : option str)
         (rate_limit : option Z) (tasks : list nat),
  confined wired_event not_item_failure
    (create_downloads video_urls download_directory cookies_file rate_limit tasks).
Proof.
  induction video_urls as [|video_url rest IH]; intros dir cookies rate tasks;
    cbn [create_downloads]; [exact I|].
  unfold_bind. apply confined_bind; [|intros task; apply IH].
  cbn. split; [reflexivity|]. intros _ _.
  split; [apply wired_item_confined|]. intros i.
  split; [reflexivity|]. intros _ _. exact I.
Qed.

Lemma list_videos_in_channel_confined (channel_url : option str) :
  confined wired_event not_item_failure (list_videos_in_channel channel_url).
Proof.
  unfold list_videos_in_channel. destruct channel_url as [url|]; [|leaf].
  destruct (contains _ url); [exact I|].
  cbn. split; [reflexivity|]. intros [exc|entries] _; leaf.
Qed.

Lemma process_channel_confined (channel_config : channel_config)
    (default_download_directory : str) (cookies_file : option str)
    (rate_limit : option Z) :
  confined wired_event not_item_failure
    (process_channel channel_config default_download_directory cookies_file
       rate_limit).
Proof.
  unfold process_channel. unfold_bind.
  apply confined_bind; [destruct (cfg_url channel_config); leaf|].
  intros raw. apply confined_bind; [apply log_confined; reflexivity|].
  intros _. apply confined_bind; [apply list_videos_in_channel_confined|].
  intros video_urls. apply confined_bind; [apply log_confined; reflexivity|].
  intros _. apply confined_bind; [apply create_downloads_confined|].
  intros tasks. apply confined_bind; [apply confined_gather; reflexivity|].
  intros _. apply log_confined; reflexivity.
Qed.

Lemma create_channels_confined (channels_config : list channel_config) :
  forall (default_download_directory : str) (cookies_file : option str)
         (rate_limit : option Z) (tasks : list nat),
  confined wired_event not_item_failure
    (create_channels channels_config default_download_directory cookies_file
       rate_limit tasks).
Proof.
  induction channels_config as [|channel_config rest IH];
    intros dir cookies rate tasks; cbn [create_channels]; [exact I|].
  unfold_bind. apply confined_bind; [|intros task; apply IH].
  cbn [create_task confined]. split; [apply process_channel_confined|].
  intros i. exact I.
Qed.

Lemma load_config_confined (config_path : str) :
  confined wired_event not_item_failure (load_config config_path).
Proof.
  cbn [load_config confined]. split; [reflexivity|].
  intros [|exc|exc|doc|strings exc|s exc|exc] _; try leaf.
  - destruct (json_channels doc); [|leaf].
    destruct (json_default_directories doc); leaf.
  - destruct (bool_decide _); leaf.
  - destruct (contains _ s); leaf.
Qed.

(** [main_async], with everything it creates, performs neither a probe nor
    a progress-bar event, and ends with no failure of an item. *)
Lemma main_async_confined (config_path : str) (max_concurrent_downloads : Z)
    (rate_limit : option Z) :
  confined wired_event not_item_failure
    (main_async config_path max_concurrent_downloads rate_limit).
Proof.
  unfold main_async. unfold_bind.
  apply confined_bind; [apply load_config_confined|].
  intros config. apply confined_bind.
  { cbn. split; [reflexivity|]. intros [exc|] _; leaf. }
  intros _. apply confined_bind.
  { unfold Semaphore. destruct (max_concurrent_downloads <? 0)%Z; [leaf|].
    apply confined_perform. reflexivity. }
  intros _. apply confined_bind; [apply log_confined; reflexivity|].
  intros _. apply confined_bind; [apply log_confined; reflexivity|].
  intros _. apply confined_bind.
  { destruct rate_limit as [d|]; [destruct (truthy_int (Some d))|];
      try exact I. apply log_confined. reflexivity. }
  intros _. apply confined_bind.
  { destruct (cookies_file config) as [f|]; [destruct (truthy_str (Some f))|];
      try exact I. apply log_confined. reflexivity. }
  intros _. apply confined_bind; [apply create_channels_confined|].
  intros tasks. apply confined_bind; [apply confined_gather; reflexivity|].
  intros _. apply log_confined; reflexivity.
Qed.

(** *** The invariant of a confined run *)

Lemma step_confined (Q : event -> bool) (T : exn -> Prop) (i : nat) (w : world)
    (s s' : loop) :
  step i w s = Some s' -> all_confined Q T s -> all_confined Q T s'.
Proof.
  intros Hstep Hall. unfold all_confined in *.
  destruct (step_inv i w s s' Hstep) as (t & Hi & Hcase).
  pose proof (Forall_lookup_1 _ _ _ _ Hall Hi) as Ht. cbn in Ht.
  destruct Hcase as [n rest Hdone Hcb ->|child cbs k Hc ->|e k Hc Hstage Hw ->
                    |e k a Hc Hstage Hsem Hg ->]; cbn [tasks suspend].
  - apply Forall_insert; [exact Hall|exact Ht].
  - rewrite Hc in Ht. destruct Ht as [Hchild Hk].
    apply Forall_app. split; [apply Forall_insert; [exact Hall|apply Hk]|].
    repeat constructor. exact Hchild.
  - apply Forall_insert; [exact Hall|exact Ht].
  - rewrite Hc in Ht. destruct Ht as [_ Hk].
    apply Forall_insert; [exact Hall|]. cbn. apply Hk.
    destruct e; try exact I. destruct a as [x|]; [|exact I].
    destruct Hg as (id & t' & _ & Hid & Hx).
    pose proof (Forall_lookup_1 _ _ _ _ Hall Hid) as Ht'. cbn in Ht'.
    rewrite Hx in Ht'. exact Ht'.
Qed.

Lemma reachable_confined (Q : event -> bool) (T : exn -> Prop) (root : coro unit)
    (s : loop) :
  confined Q T root -> reachable (boot root) s -> all_confined Q T s.
Proof.
  intros Hroot Hreach. induction Hreach as [|s i w s' _ IH Hstep].
  - repeat constructor. exact Hroot.
  - exact (step_confined Q T i w s s' Hstep IH).
Qed.

(** *** [process_channel] in the loop *)

Lemma run_loop_app (xs ys : list (nat * world)) :
  forall s s' s'' : loop,
  run_loop xs s = Some s' -> run_loop ys s' = Some s'' ->
  run_loop (xs ++ ys) s = Some s''.
Proof.
  induction xs as [|[i w] xs IH]; intros s s' s'' Hxs Hys; cbn in *.
  - injection Hxs as ->. exact Hys.
  - destruct (step i w s) as [s1|]; [|discriminate]. exact (IH s1 s' s'' Hxs Hys).
Qed.

Section Focus.

Variables (i : nat) (w : world) (ts : list task).
Hypothesis Hi : (i < length ts)%nat.

Lemma focus_lookup (c : coro unit) (h : nat) (cbs : list callback)
    (extra : list task) :
  (<[i := Task c false h cbs]> ts ++ extra) !! i = Some (Task c false h cbs).
Proof.
  rewrite lookup_app_l by (rewrite length_insert; exact Hi).
  rewrite list_lookup_insert. destruct (decide _) as [|Hn]; [reflexivity|].
  exfalso. apply Hn. split; [reflexivity|exact Hi].
Qed.

Lemma focus_insert (c c' : coro unit) (h h' : nat) (cbs cbs' : list callback)
    (extra : list task) :
  <[i := Task c' false h' cbs']> (<[i := Task c false h cbs]> ts ++ extra)
  = <[i := Task c' false h' cbs']> ts ++ extra.
Proof.
  rewrite insert_app_l by (rewrite length_insert; exact Hi).
  rewrite list_insert_insert. destruct (decide _) as [|Hn]; [reflexivity|].
  exfalso. apply Hn. reflexivity.
Qed.

(** A step at an event that neither awaits a worker or a timer nor
    gathers. *)
Lemma step_focus_event (e : event) (k : answer e -> coro unit) (h : nat)
    (cbs : list callback) (extra : list task) (sm : nat)
    (pb : option (nat * nat)) (lg : list (level * str)) :
  item_stage e = false -> (forall ids, e <> EGather ids) ->
  (e = EAcquire -> (0 < sm)%nat) ->
  step i w (focus i ts (Vis e k) h cbs extra sm pb lg)
  = Some (focus i ts (k (w e)) (holds_after e h) cbs extra (sem_after e sm)
            (pbar_after e pb) (lg ++ lines_of (existT e (w e)))).
Proof.
  intros Hstage Hgather Hacq. unfold step, focus. cbn [tasks].
  rewrite focus_lookup. cbn [code].
  destruct e; try discriminate; cbn [step_event];
    unfold add_lines, set_sem, set_pbar, resume, proceed;
    cbn [tasks sem pbar logged holds callbacks holds_after sem_after pbar_after
         lines_of];
    rewrite ?focus_insert, ?app_nil_r; try reflexivity.
  - destruct (w (ELog lvl msg)). reflexivity.
  - destruct (w (ENewSemaphore value)). reflexivity.
  - destruct (Nat.ltb_spec 0 sm) as [_|]; [|specialize (Hacq eq_refl); lia].
    destruct (w EAcquire). reflexivity.
  - destruct (w ERelease). reflexivity.
  - exfalso. exact (Hgather ids eq_refl).
  - destruct (w (ETqdm total)). reflexivity.
  - destruct (w EPbarClose). reflexivity.
Qed.

(** A step at [asyncio.create_task]. *)
Lemma step_focus_create (child : coro unit) (cbs' : list callback)
    (k : nat -> coro unit) (h : nat) (cbs : list callback) (extra : list task)
    (sm : nat) (pb : option (nat * nat)) (lg : list (level * str)) :
  step i w (focus i ts (CreateTask child cbs' k) h cbs extra sm pb lg)
  = Some (focus i ts (k (length ts + length extra)%nat) h cbs
            (extra ++ [Task child false 0 cbs']) sm pb lg).
Proof.
  unfold step, focus. cbn [tasks]. rewrite focus_lookup.
  cbn [code tasks sem pbar logged holds callbacks].
  rewrite focus_insert, length_app, length_insert, <- app_assoc. reflexivity.
Qed.

(** The loop of [process_channel] over the listed videos: with a free
    slot, each pass enters the semaphore, creates the task and leaves. *)
Lemma create_downloads_spawns (download_directory : str)
    (cookies_file : option str) (rate_limit : option Z) (video_urls : list str) :
  forall (acc : list nat) (f : list nat -> coro unit) (h : nat)
         (cbs : list callback) (extra : list task) (sm : nat)
         (pb : option (nat * nat)) (lg : list (level * str)),
  (0 < sm)%nat ->
  exists n : nat,
    run_loop (replicate n (i, w))
      (focus i ts (bind (create_downloads video_urls download_directory cookies_file
                      rate_limit acc) f) h cbs extra sm pb lg)
    = Some (focus i ts (f (acc ++ seq (length ts + length extra) (length video_urls)))
              h cbs
              (extra ++ map (fun video_url =>
                               Task (download_video_with_retries video_url
                                       download_directory cookies_file rate_limit)
                                    false 0 [])
                            video_urls)
              sm pb lg).
Proof.
  induction video_urls as [|video_url rest IH];
    intros acc f h cbs extra sm pb lg Hsm.
  - exists 0%nat. cbn. rewrite !app_nil_r. reflexivity.
  - destruct (IH (acc ++ [(length ts + length extra)%nat]) f h cbs
                (extra ++ [Task (download_video_with_retries video_url
                                   download_directory cookies_file rate_limit)
                                false 0 []]) sm pb lg Hsm) as [n Hn].
    exists (3 + n)%nat. cbn [create_downloads].
    unfold mbind, coro_bind, async_with_semaphore, create_task, perform.
    cbn [bind finally Nat.add replicate run_loop].
    rewrite step_focus_event by (reflexivity || discriminate || (intros _; exact Hsm)).
    cbn [holds_after sem_after pbar_after lines_of]. rewrite app_nil_r.
    rewrite step_focus_create.
    rewrite step_focus_event by (reflexivity || discriminate).
    cbn [holds_after sem_after pbar_after lines_of bind].
    rewrite app_nil_r.
    replace (S h - 1)%nat with h by lia.
    replace (sm - 1 + 1)%nat with sm by lia.
    rewrite Hn. rewrite length_app, <- !app_assoc. cbn [length app map seq].
    rewrite Nat.add_1_r, <- plus_n_Sm. reflexivity.
Qed.

End Focus.

Lemma peel_steps (Q : loop -> Prop) (i : nat) (w : world) (s s1 : loop) (m : nat) :
  run_loop (replicate m (i, w)) s = Some s1 ->
  (exists (n : nat) (s' : loop),
     run_loop (replicate n (i, w)) s1 = Some s' /\ Q s') ->
  exists (n : nat) (s' : loop),
    run_loop (replicate n (i, w)) s = Some s' /\ Q s'.
Proof.
  intros Hm (n & s' & Hn & HQ). exists (m + n)%nat, s'.
  split; [|exact HQ]. rewrite replicate_add.
  exact (run_loop_app _ _ s s1 s' Hm Hn).
Qed.

Lemma peel_step (Q : loop -> Prop) (i : nat) (w : world) (s s1 : loop) :
  step i w s = Some s1 ->
  (exists (n : nat) (s' : loop),
     run_loop (replicate n (i, w)) s1 = Some s' /\ Q s') ->
  exists (n : nat) (s' : loop),
    run_loop (replicate n (i, w)) s = Some s' /\ Q s'.
Proof.
  intros Hstep. apply (peel_steps Q i w s s1 1). cbn. rewrite Hstep. reflexivity.
Qed.

(** [process_channel], the task [i] of a loop, run on its own up to its
    loop over the listed videos: it has raised, with no video listed, or
    it is about to create the tasks for the listed videos and then to
    wait for them. No task has been created and the semaphore is as
    before. *)
Lemma process_channel_lists (channel_config : channel_config)
    (default_download_directory : str) (cookies_file : option str)
    (rate_limit : option Z) (w : world) (i : nat) (ts : list task) (h : nat)
    (cbs : list callback) (sm : nat) (pb : option (nat * nat))
    (lg : list (level * str)) :
  (i < length ts)%nat ->
  exists (n : nat) (s' : loop),
    run_loop (replicate n (i, w))
      (focus i ts (process_channel channel_config default_download_directory
                     cookies_file rate_limit) h cbs [] sm pb lg) = Some s'
    /\ exists (c' : coro unit) (lg' : list (level * str)),
         s' = focus i ts c' h cbs [] sm pb lg'
         /\ ((exists x, c' = Raise x)
             /\ listed_videos channel_config (fun _ => w) = []
             \/ exists f : list nat -> coro unit,
                  (forall ids, exists k, f ids = Vis (EGather ids) k)
                  /\ c' = bind (create_downloads
                                  (listed_videos channel_config (fun _ => w))
                                  (default default_download_directory
                                     (cfg_download_directory channel_config))
                                  cookies_file rate_limit []) f).
Proof.
  intros Hlt.
  assert (forall c' lg',
            (exists x, c' = Raise x)
            /\ listed_videos channel_config (fun _ => w) = []
            \/ (exists f : list nat -> coro unit,
                  (forall ids, exists k, f ids = Vis (EGather ids) k)
                  /\ c' = bind (create_downloads
                                  (listed_videos channel_config (fun _ => w))
                                  (default default_download_directory
                                     (cfg_download_directory channel_config))
                                  cookies_file rate_limit []) f) ->
            exists (n : nat) (s' : loop),
              run_loop (replicate n (i, w)) (focus i ts c' h cbs [] sm pb lg')
              = Some s'
              /\ exists (c'0 : coro unit) (lg'0 : list (level * str)),
                   s' = focus i ts c'0 h cbs [] sm pb lg'0
                   /\ ((exists x, c'0 = Raise x)
                       /\ listed_videos channel_config (fun _ => w) = []
                       \/ exists f : list nat -> coro unit,
                            (forall ids, exists k, f ids = Vis (EGather ids) k)
                            /\ c'0 = bind (create_downloads
                                             (listed_videos channel_config
                                                (fun _ => w))
                                             (default default_download_directory
                                                (cfg_download_directory
                                                   channel_config))
                                             cookies_file rate_limit []) f))
    as Hend.
  { intros c' lg' Hc'. exists 0%nat. eexists. split; [reflexivity|].
    exists c', lg'. split; [reflexivity|exact Hc']. }
  assert (forall url' : option str,
            forall ids, exists k,
              bind (gather ids)
                (fun _ => log INFO (py "Completed processing channel: "
                                    ++ fmt_url url')) = Vis (EGather ids) k)
    as Hgather.
  { intros url' ids. unfold gather. cbn [bind]. eauto. }
  revert Hend. unfold process_channel, listed_videos, mbind, coro_bind.
  destruct (cfg_url channel_config) as [raw|]; cbn [bind default]; intros Hend.
  2: { apply Hend. left. eauto. }
  unfold log at 1, perform. cbn [bind].
  eapply peel_step;
    [apply (step_focus_event i w ts Hlt); reflexivity || discriminate|].
  cbn [holds_after sem_after pbar_after lines_of].
  revert Hend. unfold list_videos_in_channel.
  destruct (get_channel_url raw) as [url|]; cbn [bind run snd]; intros Hend.
  2: { apply Hend. left. eauto. }
  revert Hend.
  destruct (contains (py "youtube.com/watch?v=") url); cbn [bind run snd];
    intros Hend.
  - unfold log at 1, perform. cbn [bind].
    eapply peel_step;
      [apply (step_focus_event i w ts Hlt); reflexivity || discriminate|].
    cbn [holds_after sem_after pbar_after lines_of].
    apply Hend. right. eexists. split; [apply Hgather|reflexivity].
  - eapply peel_step;
      [apply (step_focus_event i w ts Hlt); reflexivity || discriminate|].
    cbn [holds_after sem_after pbar_after lines_of].
    revert Hend.
    destruct (w (EExtractInfoFlat url)) as [exc|entries]; cbn [bind run snd];
      intros Hend.
    + apply Hend. left. eauto.
    + unfold log at 1, perform. cbn [bind].
      eapply peel_step;
        [apply (step_focus_event i w ts Hlt); reflexivity || discriminate|].
      cbn [holds_after sem_after pbar_after lines_of].
      apply Hend. right. eexists. split; [apply Hgather|reflexivity].
Qed.

(** With a free slot, [process_channel] creates one task per listed
    video, each the [download_video_with_retries] of that video with the
    channel's directory, entering and leaving the semaphore around each
    creation, and then waits for exactly these tasks; or it has raised,
    with no video listed. *)
Lemma process_channel_spawns (channel_config : channel_config)
    (default_download_directory : str) (cookies_file : option str)
    (rate_limit : option Z) (w : world) (s : loop) (i : nat) (t : task) :
  tasks s !! i = Some t ->
  code t = process_channel channel_config default_download_directory
             cookies_file rate_limit ->
  waiting t = false ->
  (0 < sem s)%nat ->
  exists (n : nat) (s' : loop),
    run_loop (replicate n (i, w)) s = Some s'
    /\ exists c' : coro unit,
         tasks s'
         = <[i := Task c' false (holds t) (callbacks t)]> (tasks s)
           ++ map (fun video_url =>
                     Task (download_video_with_retries video_url
                             (default default_download_directory
                                (cfg_download_directory channel_config))
                             cookies_file rate_limit)
                          false 0 [])
                  (listed_videos channel_config (fun _ => w))
         /\ sem s' = sem s
         /\ ((exists x, c' = Raise x)
             /\ listed_videos channel_config (fun _ => w) = []
             \/ exists k,
                  c' = Vis (EGather
                              (seq (length (tasks s))
                                 (length (listed_videos channel_config
                                            (fun _ => w))))) k).
Proof.
  destruct s as [ts sm pb lg], t as [c wt h cbs].
  cbn [tasks code waiting sem holds callbacks pbar logged].
  intros Hi Hc Hw Hsm. subst c wt.
  pose proof (lookup_lt_Some _ _ _ Hi) as Hlt.
  assert (Loop ts sm pb lg
          = focus i ts (process_channel channel_config default_download_directory
                          cookies_file rate_limit) h cbs [] sm pb lg) as ->.
  { unfold focus. rewrite app_nil_r, (list_insert_id _ _ _ Hi). reflexivity. }
  destruct (process_channel_lists channel_config default_download_directory
              cookies_file rate_limit w i ts h cbs sm pb lg Hlt)
    as (n & s1 & Hn & c1 & lg1 & -> & Hc1).
  eapply peel_steps; [exact Hn|].
  destruct Hc1 as [[[x ->] Hnone]|(f & Hf & ->)].
  - exists 0%nat. eexists. split; [reflexivity|]. exists (Raise x).
    rewrite Hnone. unfold focus. cbn [tasks sem map].
    split_and!; [reflexivity|reflexivity|]. left. eauto.
  - destruct (create_downloads_spawns i w ts Hlt
                (default default_download_directory
                   (cfg_download_directory channel_config))
                cookies_file rate_limit
                (listed_videos channel_config (fun _ => w)) [] f
                h cbs [] sm pb lg1 Hsm) as [m Hm].
    exists m. eexists. split; [exact Hm|].
    cbn [length app Nat.add]. rewrite Nat.add_0_r.
    destruct (Hf (seq (length ts)
                    (length (listed_videos channel_config (fun _ => w)))))
      as [k Hk].
    eexists. unfold focus. cbn [tasks sem].
    split_and!; [reflexivity|reflexivity|]. right. exists k. exact Hk.
Qed.

(** With no free slot, [process_channel] does not get past its first
    [async with semaphore]: it has created no task and cannot take a
    step. *)
Lemma process_channel_blocked (channel_config : channel_config)
    (default_download_directory : str) (cookies_file : option str)
    (rate_limit : option Z) (w : world) (s : loop) (i : nat) (t : task) :
  tasks s !! i = Some t ->
  code t = process_channel channel_config default_download_directory
             cookies_file rate_limit ->
  waiting t = false ->
  sem s = 0%nat ->
  listed_videos channel_config (fun _ => w) <> [] ->
  exists (n : nat) (s' : loop),
    run_loop (replicate n (i, w)) s = Some s'
    /\ (exists k,
          tasks s'
          = <[i := Task (Vis EAcquire k) false (holds t) (callbacks t)]> (tasks s))
    /\ step i w s' = None.
Proof.
  destruct s as [ts sm pb lg], t as [c wt h cbs].
  cbn [tasks code waiting sem holds callbacks pbar logged].
  intros Hi Hc Hw Hsm Hsome. subst c wt.
  pose proof (lookup_lt_Some _ _ _ Hi) as Hlt.
  assert (Loop ts sm pb lg
          = focus i ts (process_channel channel_config default_download_directory
                          cookies_file rate_limit) h cbs [] sm pb lg) as ->.
  { unfold focus. rewrite app_nil_r, (list_insert_id _ _ _ Hi). reflexivity. }
  destruct (process_channel_lists channel_config default_download_directory
              cookies_file rate_limit w i ts h cbs sm pb lg Hlt)
    as (n & s1 & Hn & c1 & lg1 & -> & Hc1).
  exists n. eexists. split; [exact Hn|].
  destruct Hc1 as [[_ Hnone]|(f & Hf & ->)]; [contradiction|].
  destruct (listed_videos channel_config (fun _ => w)) as [|video_url rest];
    [contradiction|].
  cbn [create_downloads]. unfold mbind, coro_bind, async_with_semaphore.
  cbn [bind]. unfold focus. cbn [tasks]. rewrite app_nil_r. split.
  - eexists. reflexivity.
  - unfold step. cbn [tasks].
    rewrite list_lookup_insert.
    destruct (decide _) as [|Hne]; [|exfalso; apply Hne; split; [reflexivity|exact Hlt]].
    cbn [code step_event sem]. rewrite Hsm. reflexivity.
Qed.

(** *** Items on the wired path *)

Lemma run_try_except (A : Type) (c : coro A) (handler : exn -> coro A) :
  forall ws : nat -> world,
  run (try_except c handler) ws
  = match (run c ws).2 with
    | Raised x =>
        ((run c ws).1
         ++ (run (handler x) (fun n => ws (length (run c ws).1 + n)%nat)).1,
         (run (handler x) (fun n => ws (length (run c ws).1 + n)%nat)).2)
    | _ => run c ws
    end.
Proof.
  induction c as [R r|R x|R|R e k IH|R child IHc cbs k IH]; intros ws;
    cbn [try_except run fst snd]; try reflexivity.
  - cbn. destruct (run (handler x) _). reflexivity.
  - rewrite IH. destruct (run (k (ws O e)) (fun n => ws (S n))) as [tr o].
    cbn [fst snd]. destruct o; reflexivity.
Qed.

(** [download_video_with_retries] on its own: it always returns; when all
    attempts failed, the last event is the error line. *)
Lemma download_video_with_retries_run (video_url download_directory : str)
    (cookies_file : option str) (rate_limit : option Z) (ws : nat -> world) :
  exists rs : list fetch_result,
    Forall (lost rate_limit) rs /\
    ((length rs < RETRY_LIMIT)%nat /\
     sleep_exc rate_limit = None /\
     run (download_video video_url download_directory cookies_file rate_limit) ws
     = (failed_attempts video_url download_directory cookies_file rate_limit 0 rs
        ++ fetch_obs video_url download_directory cookies_file Completed
           :: after_success rate_limit,
        Returned tt) /\
     run (download_video_with_retries video_url download_directory cookies_file
            rate_limit) ws
     = (failed_attempts video_url download_directory cookies_file rate_limit 0 rs
        ++ fetch_obs video_url download_directory cookies_file Completed
           :: after_success rate_limit,
        Returned tt)
     \/
     length rs = RETRY_LIMIT /\
     run (download_video video_url download_directory cookies_file rate_limit) ws
     = (failed_attempts video_url download_directory cookies_file rate_limit 0 rs,
        Raised (DownloadError (retries_exhausted_msg video_url))) /\
     run (download_video_with_retries video_url download_directory cookies_file
            rate_limit) ws
     = (failed_attempts video_url download_directory cookies_file rate_limit 0 rs
        ++ [log_obs ERROR
              (failed_after_retries_msg video_url
                 (DownloadError (retries_exhausted_msg video_url)))],
        Returned tt)).
Proof.
  destruct (download_video_run video_url download_directory cookies_file
              rate_limit ws) as (rs & Hrs & [(Hn & Hs & Hrun)|[Hn Hrun]]);
    exists rs; (split; [exact Hrs|]); [left|right]; (split; [exact Hn|]);
    [split; [exact Hs|]|]; (split; [exact Hrun|]);
    unfold download_video_with_retries; rewrite run_try_except, Hrun;
    cbn [fst snd]; [reflexivity|].
  cbn. destruct (ws _ _). reflexivity.
Qed.

Lemma probes_app (tr tr' : list obs) :
  probes (tr ++ tr') = (probes tr + probes tr')%nat.
Proof. unfold probes. rewrite filter_app, length_app. reflexivity. Qed.





(** *** What can end the run *)

Lemma lister_fails_reachable :
  exists s : loop,
    reachable (boot (main lister_fails_args)) s
    /\ exists t, tasks s !! 0%nat = Some t /\ code t = Raise listing_error.
Proof.
  destruct (run_loop lister_fails_schedule (boot (main lister_fails_args)))
    as [s|] eqn:Hrun; [|vm_compute in Hrun; discriminate].
  exists s. split; [exact (run_loop_reachable _ _ _ Hrun)|].
  assert (code <$> (tasks s !! 0%nat) = Some (Raise listing_error)) as H.
  { change (code <$> (tasks s !! 0%nat))
      with (Some s ≫= (fun s => code <$> (tasks s !! 0%nat))).
    rewrite <- Hrun. vm_compute. reflexivity. }
  destruct (tasks s !! 0%nat) as [t|]; [|discriminate].
  exists t. split; [reflexivity|]. injection H as H. exact H.
Qed.

(** C3 as stated fails: with a channel whose listing fails, the run of
    [main] reaches a state in which [main_async] itself has ended with the
    lister's exception, which is no [ConfigError]. *)
Lemma lister_failure_aborts_run :
  ~ (forall s : loop,
       reachable (boot (main lister_fails_args)) s ->
       forall (t : task) (x : exn),
         tasks s !! 0%nat = Some t -> code t = Raise x ->
         exists msg, x = ConfigError msg).
Proof.
  intros H. destruct lister_fails_reachable as (s & Hreach & t & Ht & Hc).
  destruct (H s Hreach t listing_error Ht Hc) as [msg Hmsg]. discriminate.
Qed.

(** What [process_channel] does when the lister raises. *)
Lemma process_channel_lister_raises (channel_config : channel_config)
    (default_download_directory : str) (cookies_file : option str)
    (rate_limit : option Z) (raw url exc : str) (ws : nat -> world) :
  cfg_url channel_config = Some raw ->
  get_channel_url raw = Some url ->
  contains (py "youtube.com/watch?v=") url = false ->
  ws 1%nat (EExtractInfoFlat url) = inl exc ->
  (run (process_channel channel_config default_download_directory cookies_file
          rate_limit) ws).2
  = Raised (External FromListing exc).
Proof.
  intros Hraw Hurl Hwatch Hexc. unfold process_channel.
  rewrite Hraw. unfold mbind, coro_bind. cbn [bind]. rewrite Hurl.
  unfold list_videos_in_channel. rewrite Hwatch.
  cbn [bind log perform run]. rewrite Hexc. cbn [bind run snd]. reflexivity.
Qed.

(** C3, amended: failures of items stay with the item. No task of a run
    of [main_async], its own task included, ever ends with a failure of
    an item (a [DownloadError] or an exception of a probe or fetch), and no
    loop of the model runs out of fuel; a run of
    [download_video_with_retries] or of [sem_download] that is not
    cancelled returns whatever the world answers, the former with the
    error line logged when every fetch failed. ([run] is the coroutine
    driven to its end; the cancellation by which [asyncio.run] ends the
    tasks that are pending when [main_async] has raised is not part of
    the model.) A failure of the lister is not contained: it leaves
    [process_channel]. *)
Theorem item_failures_are_contained :
  (forall (config_path : str) (max_concurrent_downloads : Z)
          (rate_limit : option Z) (s : loop),
     reachable (boot (main_async config_path max_concurrent_downloads
                        rate_limit)) s ->
     Forall (fun t => (forall x, code t = Raise x -> ~ item_failure x)
                      /\ code t <> OutOfFuel)
            (tasks s))
  /\ (forall (video_url download_directory : str) (cookies_file : option str)
             (rate_limit : option Z) (ws : nat -> world),
        let r := run (download_video_with_retries video_url download_directory
                        cookies_file rate_limit) ws in
        r.2 = Returned tt
        /\ (Forall failed (fetches r.1) ->
            at_level ERROR (logged_lines r.1)
            = [failed_after_retries_msg video_url
                 (DownloadError (retries_exhausted_msg video_url))]))
  /\ (forall (download_dir : str) (rate_limit : option Z) (video_url : str)
             (ws : nat -> world),
        (run (sem_download download_dir rate_limit video_url) ws).2
        = Returned tt)
  /\ (forall (channel_config : channel_config)
             (default_download_directory : str) (cookies_file : option str)
             (rate_limit : option Z) (raw url exc : str) (ws : nat -> world),
        cfg_url channel_config = Some raw ->
        get_channel_url raw = Some url ->
        contains (py "youtube.com/watch?v=") url = false ->
        ws 1%nat (EExtractInfoFlat url) = inl exc ->
        (run (process_channel channel_config default_download_directory
                cookies_file rate_limit) ws).2
        = Raised (External FromListing exc)).
Proof.
  split_and!.
  - intros config_path max rate s Hreach.
    pose proof (reachable_confined wired_event not_item_failure _ s
                  (main_async_confined config_path max rate) Hreach) as Hall.
    unfold all_confined in Hall.
    eapply Forall_impl; [exact Hall|]. cbn.
    intros t Ht. split.
    + intros x Hc. rewrite Hc in Ht. exact Ht.
    + intros Hc. rewrite Hc in Ht. exact Ht.
  - intros video_url dir cookies rate ws r. subst r.
    destruct (download_video_with_retries_run video_url dir cookies rate ws)
      as (rs & Hrs & [(Hn & Hs & _ & Hrun)|(Hn & _ & Hrun)]);
      rewrite Hrun; cbn [fst snd]; (split; [reflexivity|]).
    + intros Hall. exfalso. rewrite fetches_app in Hall.
      apply Forall_app in Hall as [_ Hall]. cbn in Hall.
      inversion Hall as [|? ? [exc Hexc] _]. discriminate.
    + intros _. rewrite logged_lines_app, at_level_app.
      rewrite errors_failed_attempts. reflexivity.
  - intros dir rate video_url ws.
    destruct (plain_run _ _ _ _ (sem_download_plain dir rate video_url) ws)
      as [_ Hout].
    destruct (run _ ws).2 as [[]|x| |]; [reflexivity|destruct Hout..].
  - intros. eapply process_channel_lister_raises; eassumption.
Qed.

Lemma failing_items_reachable :
  exists s : loop,
    reachable (boot (main two_items_args)) s
    /\ length (tasks s) = 4%nat
    /\ forallb returned (tasks s) = true
    /\ at_level ERROR (logged s)
       = [py "Failed to download video https://www.youtube.com/watch?v=a after retries: Failed to download https://www.youtube.com/watch?v=a after 3 retries.";
          py "Failed to download video https://www.youtube.com/watch?v=b after retries: Failed to download https://www.youtube.com/watch?v=b after 3 retries."].
Proof.
  destruct (run_loop failing_items_schedule (boot (main two_items_args)))
    as [s|] eqn:Hrun; [|vm_compute in Hrun; discriminate].
  exists s. split; [exact (run_loop_reachable _ _ _ Hrun)|].
  assert (Some (length (tasks s), forallb returned (tasks s),
                at_level ERROR (logged s))
          = Some (4%nat, true,
                  [py "Failed to download video https://www.youtube.com/watch?v=a after retries: Failed to download https://www.youtube.com/watch?v=a after 3 retries.";
                   py "Failed to download video https://www.youtube.com/watch?v=b after retries: Failed to download https://www.youtube.com/watch?v=b after 3 retries."]))
    as H.
  { change (Some (length (tasks s), forallb returned (tasks s),
                  at_level ERROR (logged s)))
      with ((fun s => (length (tasks s), forallb returned (tasks s),
                       at_level ERROR (logged s))) <$> Some s).
    rewrite <- Hrun. vm_compute. reflexivity. }
  injection H as H1 H2 H3. split_and!; assumption.
Qed.

(** A run of [main] over a channel of two items whose fetches all fail:
    each item makes its three attempts and logs its error line, and every
    task, [main_async] included, returns. The failed item on its own
    returns with its error line; a failing lister ends [process_channel]
    with its exception. *)
Lemma item_failures_are_contained_witness :
  (exists s : loop,
     reachable (boot (main two_items_args)) s
     /\ length (tasks s) = 4%nat
     /\ forallb returned (tasks s) = true
     /\ length (at_level ERROR (logged s)) = 2%nat
     /\ Forall (fun t => (forall x, code t = Raise x -> ~ item_failure x)
                         /\ code t <> OutOfFuel)
               (tasks s))
  /\ (let r := run (download_video_with_retries (py "u") (py "d") None None)
                 (fun _ => fetch_fails (py "boom")) in
      r.2 = Returned tt
      /\ at_level ERROR (logged_lines r.1)
         = [failed_after_retries_msg (py "u")
              (DownloadError (retries_exhausted_msg (py "u")))])
  /\ (run (process_channel
             (ChannelConfig (Some (py "https://www.youtube.com/c/Example")) None)
             (py "downloads") None None) (fun _ => lister_fails_world)).2
     = Raised (External FromListing (py "HTTP Error 404")).
Proof.
  destruct item_failures_are_contained as (Hinv & Hitem & _ & Hlister).
  split_and!.
  - destruct failing_items_reachable as (s & Hreach & Hlen & Hret & Herr).
    exists s. split_and!; [exact Hreach|exact Hlen|exact Hret| |].
    + rewrite Herr. reflexivity.
    + exact (Hinv _ _ _ s Hreach).
  - destruct (Hitem (py "u") (py "d") None None (fun _ => fetch_fails (py "boom")))
      as [Hout Herr].
    split; [exact Hout|]. apply Herr.
    assert (fetches (run (download_video_with_retries (py "u") (py "d") None None)
                       (fun _ => fetch_fails (py "boom"))).1
            = [DownloadRaised (py "boom"); DownloadRaised (py "boom");
               DownloadRaised (py "boom")]) as -> by (vm_compute; reflexivity).
    repeat constructor; eexists; reflexivity.
  - apply (Hlister _ _ _ _ (py "https://www.youtube.com/c/Example")
             (py "https://www.youtube.com/c/Example/videos")
             (py "HTTP Error 404")); reflexivity.
Defined.

(** *** The progress bar of [download_videos_in_channel] *)

Lemma sum_list_with_insert (A : Type) (f : A -> nat) (l : list A) :
  forall (j : nat) (x y : A),
  l !! j = Some y ->
  (sum_list_with f (<[j := x]> l) + f y = sum_list_with f l + f x)%nat.
Proof.
  induction l as [|z l IH]; intros j x y Hj; [discriminate|].
  destruct j as [|j]; simpl in Hj.
  - injection Hj as ->. simpl. lia.
  - specialize (IH j x y Hj). simpl in *. lia.
Qed.

Lemma count_notified_insert (items : list task) (j : nat) (x y : task) :
  items !! j = Some y ->
  (count_notified (<[j := x]> items) + mark y
   = count_notified items + mark x)%nat.
Proof. apply sum_list_with_insert. Qed.

Lemma count_notified_snoc (items : list task) (x : task) :
  count_notified (items ++ [x]) = (count_notified items + mark x)%nat.
Proof.
  unfold count_notified. rewrite sum_list_with_app. simpl. lia.
Qed.

Lemma count_notified_le (items : list task) :
  (count_notified items <= length items)%nat.
Proof.
  unfold count_notified. induction items as [|t items IH]; simpl; [lia|].
  unfold mark at 1. destruct (notified t); lia.
Qed.

(** The loop over the items, up to the end of the [with] block. *)
Lemma create_sem_downloads_spawner (channel_videos : list str) :
  forall (download_dir : str) (rate_limit : option Z) (tasks : list nat),
  spawner (length channel_videos)
    (finally
       (bind (create_sem_downloads channel_videos download_dir rate_limit tasks)
             gather)
       (perform EPbarClose)).
Proof.
  induction channel_videos as [|video_url rest IH]; intros dir rate tasks.
  - cbn. split; [reflexivity|]. intros [x|]; cbn; auto.
  - cbn [create_sem_downloads length]. unfold mbind, coro_bind, create_task.
    cbn [bind finally spawner].
    split; [reflexivity|]. split; [apply sem_download_plain|].
    intros i. apply IH.
Qed.

Lemma download_videos_in_channel_before_bar (channel_videos : list str)
    (download_dir : str) (max_concurrent : Z) (rate_limit : option Z) :
  before_bar (length channel_videos)
    (download_videos_in_channel channel_videos download_dir max_concurrent
       rate_limit).
Proof.
  unfold download_videos_in_channel, Semaphore, with_tqdm.
  unfold mbind, coro_bind.
  destruct (max_concurrent <? 0)%Z; [exact I|].
  cbn [perform bind before_bar]. intros _. split; [reflexivity|].
  intros _. apply create_sem_downloads_spawner.
Qed.

Lemma item_event_no_tqdm (e : event) (p : option (nat * nat)) :
  is_sem_item_event e = true -> pbar_after e p = p.
Proof. intros H. destruct e; cbn in *; congruence. Qed.

Lemma no_tqdm_pbar_after (e : event) (p : option (nat * nat)) :
  no_tqdm e = true -> pbar_after e p = p.
Proof. intros H. destruct e; cbn in *; congruence. Qed.

Lemma item_ok_mark_pending (t : task) :
  item_ok t -> is_done t = false -> mark t = 0%nat.
Proof.
  intros [_ [Hcb|[_ Hdone]]] Hnot; [|congruence].
  unfold mark, notified. rewrite Hcb. reflexivity.
Qed.

(** A step of the root task keeps the invariant. *)
Lemma step_root_bar_inv (total : nat) (s s' : loop) (root : task)
    (items : list task) :
  tasks s = root :: items ->
  callbacks root = [] ->
  Forall item_ok items ->
  (pbar s = None /\ items = [] /\ before_bar total (code root)
   \/ exists b : nat,
        pbar s = Some (total, count_notified items)
        /\ spawner b (code root)
        /\ (length items + b <= total)%nat) ->
  step_case 0 s s' root ->
  bar_inv total s'.
Proof.
  intros Htasks Hrcb Hitems Hbar Hcase.
  destruct Hcase as [n rest Hdone Hcb ->|child cbs k Hc ->|e k Hc Hstage Hw ->
                    |e k a Hc Hstage Hsem Hg ->].
  - rewrite Hrcb in Hcb. discriminate.
  - (* the root creates an item task *)
    destruct Hbar as [(_ & _ & Hbefore)|(b & Hp & Hsp & Hlen)];
      rewrite Hc in *; [destruct Hbefore|].
    destruct b as [|b]; [destruct Hsp|]. destruct Hsp as (-> & Hchild & Hk).
    exists (Task (k (length (tasks s))) false (holds root) (callbacks root)),
           (items ++ [Task child false 0 [PbarUpdate 1]]).
    cbn [tasks pbar]. rewrite Htasks. split_and!.
    + reflexivity.
    + exact Hrcb.
    + apply Forall_app. split; [exact Hitems|]. constructor; [|constructor].
      split; [exact Hchild|left; reflexivity].
    + right. exists b. split_and!.
      * rewrite Hp, count_notified_snoc. cbn. rewrite Nat.add_0_r. reflexivity.
      * apply Hk.
      * rewrite length_app. cbn. lia.
  - (* the root suspends *)
    exists (Task (code root) true (holds root) (callbacks root)), items.
    cbn [suspend tasks pbar]. rewrite Htasks. split_and!; auto.
  - (* the root performs an event *)
    exists (Task (k a) false (holds_after e (holds root)) (callbacks root)), items.
    cbn [tasks pbar]. rewrite Htasks. split_and!; [reflexivity|exact Hrcb|exact Hitems|].
    destruct Hbar as [(Hp & -> & Hbefore)|(b & Hp & Hsp & Hlen)]; rewrite Hc in *.
    + cbn [code]. destruct e; cbn [before_bar] in Hbefore;
        try (left; rewrite Hp; split_and!; [reflexivity|reflexivity|apply Hbefore]).
      destruct Hbefore as [-> Hk]. right. exists total.
      cbn. split_and!; [reflexivity|apply Hk|lia].
    + destruct Hsp as [He Hk]. right. exists b.
      rewrite (no_tqdm_pbar_after e _ He), Hp. split_and!; [reflexivity|apply Hk|exact Hlen].
Qed.

(** A step of an item task keeps the invariant. *)
Lemma step_item_bar_inv (total : nat) (s s' : loop) (root : task)
    (items : list task) (j : nat) (t : task) :
  tasks s = root :: items ->
  callbacks root = [] ->
  Forall item_ok items ->
  (pbar s = None /\ items = [] /\ before_bar total (code root)
   \/ exists b : nat,
        pbar s = Some (total, count_notified items)
        /\ spawner b (code root)
        /\ (length items + b <= total)%nat) ->
  items !! j = Some t ->
  step_case (S j) s s' t ->
  bar_inv total s'.
Proof.
  intros Htasks Hrcb Hitems Hbar Hj Hcase.
  pose proof (Forall_lookup_1 _ _ _ _ Hitems Hj) as Hok.
  destruct Hbar as [(_ & -> & _)|(b & Hp & Hsp & Hlen)]; [discriminate|].
  destruct Hok as [Hplain Hcbs].
  destruct Hcase as [n rest Hdone Hcb ->|child cbs k Hc ->|e k Hc Hstage Hw ->
                    |e k a Hc Hstage Hsem Hg ->].
  - (* the done callback runs: the bar advances by one *)
    destruct Hcbs as [Hone|[Hnone _]]; [|congruence].
    rewrite Hone in Hcb. injection Hcb as <- <-.
    exists root, (<[j := Task (code t) false (holds t) []]> items).
    cbn [tasks pbar]. rewrite Htasks. split_and!.
    + reflexivity.
    + exact Hrcb.
    + apply Forall_insert; [exact Hitems|]. split; [exact Hplain|].
      right. split; [reflexivity|exact Hdone].
    + right. exists b. rewrite length_insert. split_and!; [|exact Hsp|exact Hlen].
      rewrite Hp. cbn [pbar_update]. do 2 f_equal.
      pose proof (count_notified_insert items j
                    (Task (code t) false (holds t) []) t Hj) as Hcount.
      unfold mark at 1 2 in Hcount. unfold notified in Hcount.
      rewrite Hone in Hcount. cbn in Hcount. lia.
  - rewrite Hc in Hplain. destruct Hplain.
  - (* the item suspends *)
    exists root, (<[j := Task (code t) true (holds t) (callbacks t)]> items).
    cbn [suspend tasks pbar]. rewrite Htasks. split_and!.
    + reflexivity.
    + exact Hrcb.
    + apply Forall_insert; [exact Hitems|]. split; [exact Hplain|exact Hcbs].
    + right. exists b. rewrite length_insert. split_and!; [|exact Hsp|exact Hlen].
      rewrite Hp. do 2 f_equal.
      pose proof (count_notified_insert items j
                    (Task (code t) true (holds t) (callbacks t)) t Hj) as Hcount.
      unfold mark at 1 2 in Hcount. unfold notified in Hcount.
      cbn [callbacks] in Hcount. destruct (callbacks t); lia.
  - (* the item performs an event *)
    rewrite Hc in Hplain. destruct Hplain as [He Hk].
    assert (callbacks t = [PbarUpdate 1]) as Hone.
    { destruct Hcbs as [Hone|[_ Hdone]]; [exact Hone|].
      unfold is_done in Hdone. rewrite Hc in Hdone. discriminate. }
    exists root,
      (<[j := Task (k a) false (holds_after e (holds t)) (callbacks t)]> items).
    cbn [tasks pbar]. rewrite Htasks. split_and!.
    + reflexivity.
    + exact Hrcb.
    + apply Forall_insert; [exact Hitems|]. split; [apply Hk|left; exact Hone].
    + right. exists b. rewrite length_insert. split_and!; [|exact Hsp|exact Hlen].
      rewrite (item_event_no_tqdm e _ He), Hp. do 2 f_equal.
      pose proof (count_notified_insert items j
                    (Task (k a) false (holds_after e (holds t)) (callbacks t))
                    t Hj) as Hcount.
      unfold mark at 1 2 in Hcount. unfold notified in Hcount.
      cbn [callbacks] in Hcount. destruct (callbacks t); lia.
Qed.

Lemma step_bar_inv (total : nat) (i : nat) (w : world) (s s' : loop) :
  step i w s = Some s' -> bar_inv total s -> bar_inv total s'.
Proof.
  intros Hstep (root & items & Htasks & Hrcb & Hitems & Hbar).
  destruct (step_inv i w s s' Hstep) as (t & Hi & Hcase).
  rewrite Htasks in Hi. destruct i as [|j]; simpl in Hi.
  - injection Hi as <-.
    exact (step_root_bar_inv total s s' root items Htasks Hrcb Hitems Hbar Hcase).
  - exact (step_item_bar_inv total s s' root items j t Htasks Hrcb Hitems Hbar
             Hi Hcase).
Qed.

Lemma boot_bar_inv (channel_videos : list str) (download_dir : str)
    (max_concurrent : Z) (rate_limit : option Z) :
  bar_inv (length channel_videos)
    (boot (download_videos_in_channel channel_videos download_dir
             max_concurrent rate_limit)).
Proof.
  eexists _, []. split_and!; [reflexivity|reflexivity|constructor|].
  left. split_and!; [reflexivity|reflexivity|].
  apply download_videos_in_channel_before_bar.
Qed.

Lemma reachable_bar_inv (channel_videos : list str) (download_dir : str)
    (max_concurrent : Z) (rate_limit : option Z) (s : loop) :
  reachable (boot (download_videos_in_channel channel_videos download_dir
                     max_concurrent rate_limit)) s ->
  bar_inv (length channel_videos) s.
Proof.
  intros Hreach. induction Hreach as [|s i w s' _ IH Hstep].
  - apply boot_bar_inv.
  - exact (step_bar_inv _ i w s s' Hstep IH).
Qed.

Lemma bar_inv_completed (total : nat) (s : loop) :
  bar_inv total s ->
  completed s = count_notified (tail (tasks s))
  /\ (completed s <= total)%nat
  /\ (forall t n, pbar s = Some (t, n) -> t = total)
  /\ Forall (fun t => callbacks t = [PbarUpdate 1]
                      \/ callbacks t = [] /\ is_done t = true)
            (tail (tasks s)).
Proof.
  intros (root & items & Htasks & _ & Hitems & Hbar).
  rewrite Htasks. cbn [tail]. unfold completed.
  destruct Hbar as [(Hp & -> & _)|(b & Hp & _ & Hlen)]; rewrite Hp.
  - split_and!; [reflexivity|lia|discriminate|constructor].
  - pose proof (count_notified_le items). split_and!; [reflexivity|lia| |].
    + intros t n Heq. congruence.
    + eapply Forall_impl; [exact Hitems|]. intros t [_ Hcb]. exact Hcb.
Qed.

(** A step never takes the bar back. *)
Lemma step_completed_mono (total : nat) (i : nat) (w : world) (s s' : loop) :
  bar_inv total s -> step i w s = Some s' ->
  (completed s <= completed s')%nat.
Proof.
  intros (root & items & Htasks & Hrcb & Hitems & Hbar) Hstep.
  destruct (step_inv i w s s' Hstep) as (t & Hi & Hcase).
  destruct Hcase as [n rest Hdone Hcb ->|child cbs k Hc ->|e k Hc Hstage Hw ->
                    |e k a Hc Hstage Hsem Hg ->]; unfold completed; cbn [pbar suspend].
  - destruct (pbar s) as [[tot cur]|]; cbn; lia.
  - destruct (pbar s) as [[tot cur]|]; lia.
  - destruct (pbar s) as [[tot cur]|]; lia.
  - destruct Hbar as [(Hp & _)|(b & Hp & Hsp & _)]; rewrite Hp.
    + lia.
    + assert (pbar_after e (Some (total, count_notified items))
              = Some (total, count_notified items)) as ->; [|lia].
      rewrite Htasks in Hi. destruct i as [|j]; simpl in Hi.
      * injection Hi as <-. rewrite Hc in Hsp.
        apply no_tqdm_pbar_after. exact (proj1 Hsp).
      * pose proof (Forall_lookup_1 _ _ _ _ Hitems Hi) as [Hplain _].
        rewrite Hc in Hplain. apply item_event_no_tqdm. exact (proj1 Hplain).
Qed.

(** The wired path opens no progress bar. *)
Lemma wired_path_has_no_bar (config_path : str) (max_concurrent_downloads : Z)
    (rate_limit : option Z) (s : loop) :
  reachable (boot (main_async config_path max_concurrent_downloads rate_limit)) s ->
  pbar s = None.
Proof.
  intros Hreach. induction Hreach as [|s i w s' Hreach IH Hstep]; [reflexivity|].
  pose proof (reachable_confined wired_event not_item_failure _ s
                (main_async_confined config_path max_concurrent_downloads
                   rate_limit) Hreach) as Hall.
  destruct (step_inv i w s s' Hstep) as (t & Hi & Hcase).
  pose proof (Forall_lookup_1 _ _ _ _ Hall Hi) as Ht. cbn in Ht.
  destruct Hcase as [n rest Hdone Hcb ->|child cbs k Hc ->|e k Hc Hstage Hw ->
                    |e k a Hc Hstage Hsem Hg ->]; cbn [pbar suspend];
    rewrite ?IH; try reflexivity.
  rewrite Hc in Ht. destruct Ht as [He _].
  destruct e; cbn in He |- *; congruence.
Qed.

Lemma two_videos_reachable :
  exists s : loop,
    reachable (boot (download_videos_in_channel two_videos (py "dir") 2 None)) s
    /\ pbar s = Some (2%nat, 2%nat)
    /\ forallb is_done (tasks s) = true
    /\ at_level WARNING (logged s)
       = [py "Skipping download (metadata fetch failed): a"].
Proof.
  destruct (run_loop two_videos_schedule
              (boot (download_videos_in_channel two_videos (py "dir") 2 None)))
    as [s|] eqn:Hrun; [|vm_compute in Hrun; discriminate].
  exists s. split; [exact (run_loop_reachable _ _ _ Hrun)|].
  assert (Some (pbar s, forallb is_done (tasks s), at_level WARNING (logged s))
          = Some (Some (2%nat, 2%nat), true,
                  [py "Skipping download (metadata fetch failed): a"])) as H.
  { change (Some (pbar s, forallb is_done (tasks s), at_level WARNING (logged s)))
      with ((fun s => (pbar s, forallb is_done (tasks s),
                       at_level WARNING (logged s))) <$> Some s).
    rewrite <- Hrun. vm_compute. reflexivity. }
  injection H as Hp Hd Hl. split_and!; assumption.
Qed.

(** C6 as stated fails: of two resolved channels with one and two items,
    the bar of the call for the first has the total 1, not 3. The total
    is that of one call of [download_videos_in_channel]. *)
Lemma progress_total_is_per_call :
  let channels := [[py "a"]; [py "b"; py "c"]] in
  ~ (forall videos : list str,
       In videos channels ->
       forall s : loop,
         reachable (boot (download_videos_in_channel videos (py "dir") 3 None)) s ->
         forall total n : nat,
           pbar s = Some (total, n) ->
           total = sum_list_with length channels).
Proof.
  intros channels H.
  destruct (run_loop (replicate 2 (0%nat, calm))
              (boot (download_videos_in_channel [py "a"] (py "dir") 3 None)))
    as [s|] eqn:Hrun; [|vm_compute in Hrun; discriminate].
  assert (pbar s = Some (1%nat, 0%nat)) as Hp.
  { assert (Some (pbar s) = Some (Some (1%nat, 0%nat))) as Hp.
    { change (Some (pbar s)) with (pbar <$> Some s).
      rewrite <- Hrun. vm_compute. reflexivity. }
    injection Hp as Hp. exact Hp. }
  specialize (H [py "a"] (or_introl eq_refl) s (run_loop_reachable _ _ _ Hrun)
                1%nat 0%nat Hp).
  vm_compute in H. discriminate.
Qed.

(** C6, amended: the progress bar belongs to one call of
    [download_videos_in_channel]. In every state of such a call over
    [channel_videos], a bar that exists has the total
    [len(channel_videos)]; its count is the number of item tasks whose
    done callback has run, each item task has exactly one such callback,
    which runs only once the task is done, so the count never exceeds the
    total; and no step of the loop lowers the count. The run that [main]
    wires never opens a progress bar. *)
Theorem progress_bar_counts_items :
  (forall (channel_videos : list str) (download_dir : str)
          (max_concurrent : Z) (rate_limit : option Z) (s : loop),
     reachable (boot (download_videos_in_channel channel_videos download_dir
                        max_concurrent rate_limit)) s ->
     (forall total n, pbar s = Some (total, n) -> total = length channel_videos)
     /\ completed s = count_notified (tail (tasks s))
     /\ (completed s <= length channel_videos)%nat
     /\ Forall (fun t => callbacks t = [PbarUpdate 1]
                         \/ callbacks t = [] /\ is_done t = true)
               (tail (tasks s))
     /\ (forall (i : nat) (w : world) (s' : loop),
           step i w s = Some s' -> (completed s <= completed s')%nat))
  /\ (forall (config_path : str) (max_concurrent_downloads : Z)
             (rate_limit : option Z) (s : loop),
        reachable (boot (main_async config_path max_concurrent_downloads
                           rate_limit)) s ->
        pbar s = None).
Proof.
  split.
  - intros videos dir max rate s Hreach.
    pose proof (reachable_bar_inv videos dir max rate s Hreach) as Hinv.
    destruct (bar_inv_completed _ s Hinv) as (Hcount & Hle & Htotal & Hcbs).
    split_and!; [exact Htotal|exact Hcount|exact Hle|exact Hcbs|].
    intros i w s' Hstep. exact (step_completed_mono _ i w s s' Hinv Hstep).
  - apply wired_path_has_no_bar.
Qed.

Lemma progress_bar_counts_items_witness :
  exists s : loop,
    reachable (boot (download_videos_in_channel two_videos (py "dir") 2 None)) s
    /\ pbar s = Some (2%nat, 2%nat)
    /\ completed s = count_notified (tail (tasks s))
    /\ (completed s <= length two_videos)%nat.
Proof.
  destruct two_videos_reachable as (s & Hreach & Hp & _).
  exists s.
  destruct (proj1 progress_bar_counts_items two_videos (py "dir") 2%Z None s Hreach)
    as (_ & Hcount & Hle & _).
  split_and!; assumption.
Defined.

(** *** [download_videos_in_channel] bounds the items in flight *)

Lemma item_event_sem_ok (e : event) (h : nat) :
  is_item_event e = true -> sem_ok e (S h) /\ holds_after e (S h) = S h.
Proof.
  intros He. destruct e; cbn in He |- *; try discriminate;
    (split; [intros; lia|reflexivity]).
Qed.

(** The body of an [async with semaphore] block that only probes, fetches,
    sleeps and logs keeps its slot up to the end of the block. *)
Lemma async_with_body_disciplined (T : exn -> Prop) (A : Type) (body : coro A) :
  plain is_item_event T body ->
  disciplined 1 (finally body (perform ERelease)).
Proof.
  induction body as [R r|R x|R|R e k IH|R child IHc cbs k IH];
    cbn [plain finally].
  - intros _. cbn. split; [lia|]. intros _. reflexivity.
  - intros _. cbn. split; [lia|]. intros _. reflexivity.
  - intros [].
  - intros [He Hk]. cbn [disciplined].
    destruct (item_event_sem_ok e 0 He) as [Hok Hafter].
    split; [exact Hok|]. intros a. rewrite Hafter. apply IH, Hk.
  - intros [].
Qed.

Lemma sem_download_disciplined (download_dir : str) (rate_limit : option Z)
    (video_url : str) :
  disciplined 0 (sem_download download_dir rate_limit video_url).
Proof.
  unfold sem_download, async_with_semaphore. cbn [disciplined holds_after].
  split; [cbn; discriminate|]. intros _.
  apply (async_with_body_disciplined no_one), sem_download_body_plain.
Qed.

Lemma create_sem_downloads_disciplined (channel_videos : list str) :
  forall (download_dir : str) (rate_limit : option Z) (tasks : list nat),
  disciplined 0
    (finally
       (bind (create_sem_downloads channel_videos download_dir rate_limit tasks)
             gather)
       (perform EPbarClose)).
Proof.
  induction channel_videos as [|video_url rest IH]; intros dir rate tasks.
  - cbn. split; [discriminate|]. intros [x|]; cbn; (split; [discriminate|]);
      intros _; reflexivity.
  - cbn [create_sem_downloads]. unfold mbind, coro_bind, create_task.
    cbn [bind finally disciplined].
    split; [apply sem_download_disciplined|]. intros i. apply IH.
Qed.

Lemma step_slot_inv (cap : nat) (i : nat) (w : world) (s s' : loop) :
  step i w s = Some s' -> slot_inv cap s -> slot_inv cap s'.
Proof.
  intros Hstep [Hsum Hall].
  destruct (step_inv i w s s' Hstep) as (t & Hi & Hcase).
  pose proof (Forall_lookup_1 _ _ _ _ Hall Hi) as Ht. cbn in Ht.
  destruct Hcase as [n rest Hdone Hcb ->|child cbs k Hc ->|e k Hc Hstage Hw ->
                    |e k a Hc Hstage Hsem Hg ->];
    unfold slot_inv; cbn [tasks sem suspend].
  - pose proof (sum_list_with_insert task holds (tasks s) i
                  (Task (code t) false (holds t) rest) t Hi) as Hins.
    cbn [holds] in Hins. split; [lia|].
    apply Forall_insert; [exact Hall|exact Ht].
  - rewrite Hc in Ht. destruct Ht as [Hchild Hk].
    pose proof (sum_list_with_insert task holds (tasks s) i
                  (Task (k (length (tasks s))) false (holds t) (callbacks t))
                  t Hi) as Hins.
    cbn [holds] in Hins. rewrite sum_list_with_app. cbn.
    split; [lia|].
    apply Forall_app. split; [apply Forall_insert; [exact Hall|apply Hk]|].
    repeat constructor. exact Hchild.
  - pose proof (sum_list_with_insert task holds (tasks s) i
                  (Task (code t) true (holds t) (callbacks t)) t Hi) as Hins.
    cbn [holds] in Hins. split; [lia|].
    apply Forall_insert; [exact Hall|exact Ht].
  - rewrite Hc in Ht. destruct Ht as [Hok Hk].
    pose proof (sum_list_with_insert task holds (tasks s) i
                  (Task (k a) false (holds_after e (holds t)) (callbacks t))
                  t Hi) as Hins.
    cbn [holds] in Hins.
    split; [|apply Forall_insert; [exact Hall|apply Hk]].
    destruct e; cbn [sem_after holds_after sem_ok] in *;
      try lia; try (destruct Hok; fail).
    specialize (Hsem eq_refl). lia.
Qed.

Lemma in_flight_le_holds (ts : list task) :
  Forall (fun t => disciplined (holds t) (code t)) ts ->
  (length (filter (fun t => in_flight t = true) ts) <= sum_list_with holds ts)%nat.
Proof.
  induction 1 as [|t ts Ht _ IH]; [reflexivity|].
  cbn [sum_list_with]. destruct (decide (in_flight t = true)) as [Hin|Hout].
  - rewrite filter_cons_True by exact Hin. cbn [length].
    assert (1 <= holds t)%nat; [|lia].
    unfold in_flight in Hin. destruct (code t) as [| | |e k|]; try discriminate.
    apply andb_prop in Hin as [_ Hstage]. destruct Ht as [Hok _].
    destruct e; cbn in Hstage, Hok; try discriminate; auto.
  - rewrite filter_cons_False by exact Hout. lia.
Qed.

(** The first step of the call creates the semaphore. *)
Lemma first_step_slot_inv (channel_videos : list str) (download_dir : str)
    (max_concurrent : Z) (rate_limit : option Z) (i : nat) (w : world)
    (s' : loop) :
  step i w (boot (download_videos_in_channel channel_videos download_dir
                    max_concurrent rate_limit)) = Some s' ->
  slot_inv (Z.to_nat max_concurrent) s'.
Proof.
  unfold step, boot. cbn [tasks].
  destruct i as [|i]; [|discriminate]. cbn [lookup list_lookup code callbacks].
  unfold download_videos_in_channel, Semaphore, with_tqdm, mbind, coro_bind.
  destruct (max_concurrent <? 0)%Z; cbn [perform bind step_event];
    [discriminate|].
  intros Hstep. injection Hstep as <-.
  unfold slot_inv. split; [cbn; lia|].
  cbn [tasks set_sem resume proceed]. constructor; [|constructor].
  cbn [code holds disciplined holds_after].
  split; [discriminate|]. intros _. apply create_sem_downloads_disciplined.
Qed.

Lemma in_flight_holds (ts : list task) :
  Forall (fun t => disciplined (holds t) (code t)) ts ->
  Forall (fun t => in_flight t = true -> (1 <= holds t)%nat) ts.
Proof.
  intros Hall. eapply Forall_impl; [exact Hall|]. cbn. intros t Ht Hin.
  unfold in_flight in Hin. destruct (code t) as [| | |e k|]; try discriminate.
  apply andb_prop in Hin as [_ Hstage]. destruct Ht as [Hok _].
  destruct e; cbn in Hstage, Hok; try discriminate; auto.
Qed.

(** On the path of [download_videos_in_channel], every task suspended in
    a probe, a fetch or a rate-limit delay holds a slot of the semaphore
    (it has entered [async with semaphore] and not left it), the slots
    held never exceed [max_concurrent], and so neither do the tasks in
    flight. *)
Theorem download_videos_in_channel_bounds_in_flight
    (channel_videos : list str) (download_dir : str) (max_concurrent : Z)
    (rate_limit : option Z) (s : loop) :
  reachable (boot (download_videos_in_channel channel_videos download_dir
                     max_concurrent rate_limit)) s ->
  Forall (fun t => in_flight t = true -> (1 <= holds t)%nat) (tasks s)
  /\ (in_flight_count s <= sum_list_with holds (tasks s))%nat
  /\ (sum_list_with holds (tasks s) <= Z.to_nat max_concurrent)%nat
  /\ (in_flight_count s <= Z.to_nat max_concurrent)%nat.
Proof.
  intros Hreach.
  assert (s = boot (download_videos_in_channel channel_videos download_dir
                      max_concurrent rate_limit)
          \/ slot_inv (Z.to_nat max_concurrent) s) as [->|[Hsum Hall]].
  { induction Hreach as [|s i w s' _ IH Hstep]; [left; reflexivity|].
    right. destruct IH as [->|Hinv];
      [|exact (step_slot_inv _ i w s s' Hstep Hinv)].
    exact (first_step_slot_inv channel_videos download_dir max_concurrent
             rate_limit i w s' Hstep). }
  - unfold in_flight_count, boot, download_videos_in_channel, Semaphore,
      mbind, coro_bind.
    destruct (max_concurrent <? 0)%Z; cbn [tasks perform bind];
      rewrite filter_cons_False by (cbn; discriminate);
      (split_and!; [repeat constructor; cbn; discriminate|cbn; lia..]).
  - pose proof (in_flight_le_holds _ Hall) as Hle.
    split_and!; [exact (in_flight_holds _ Hall)|exact Hle|lia|].
    unfold in_flight_count. lia.
Qed.

Lemma in_flight_reachable :
  exists s : loop,
    reachable (boot (download_videos_in_channel three_videos (py "dir") 2 None)) s
    /\ in_flight_count s = 2%nat
    /\ map holds (tasks s) = [0; 1; 1; 0]%nat
    /\ sem s = 0%nat
    /\ step 3 calm s = None.
Proof.
  destruct (run_loop in_flight_schedule
              (boot (download_videos_in_channel three_videos (py "dir") 2 None)))
    as [s|] eqn:Hrun; [|vm_compute in Hrun; discriminate].
  exists s. split; [exact (run_loop_reachable _ _ _ Hrun)|].
  assert (Some (in_flight_count s, map holds (tasks s), sem s, step 3 calm s)
          = Some (2%nat, [0; 1; 1; 0]%nat, 0%nat, None)) as H.
  { change (Some (in_flight_count s, map holds (tasks s), sem s, step 3 calm s))
      with ((fun s => (in_flight_count s, map holds (tasks s), sem s,
                       step 3 calm s)) <$> Some s).
    rewrite <- Hrun. vm_compute. reflexivity. }
  injection H as H1 H2 H3 H4. split_and!; assumption.
Qed.

(** Three items with two slots: two tasks are suspended in their probe,
    each holding a slot, and the third cannot enter the semaphore. *)
Lemma download_videos_in_channel_bounds_in_flight_witness :
  exists s : loop,
    reachable (boot (download_videos_in_channel three_videos (py "dir") 2 None)) s
    /\ in_flight_count s = 2%nat
    /\ sem s = 0%nat
    /\ step 3 calm s = None
    /\ Forall (fun t => in_flight t = true -> (1 <= holds t)%nat) (tasks s)
    /\ (in_flight_count s <= 2)%nat.
Proof.
  destruct in_flight_reachable as (s & Hreach & Hcount & _ & Hsem & Hblocked).
  exists s.
  destruct (download_videos_in_channel_bounds_in_flight three_videos (py "dir")
              2%Z None s Hreach) as (Hholds & _ & _ & Hmax).
  split_and!; [exact Hreach|exact Hcount|exact Hsem|exact Hblocked|exact Hholds|].
  exact Hmax.
Defined.

(** ** More on the channel URL normalizer *)

Section DropWhile.

Variable p : codepoint -> bool.

Lemma drop_while_length (s : str) : (length (drop_while p s) <= length s)%nat.
Proof.
  induction s as [|c s IH]; simpl; [lia|]. destruct (p c); simpl; lia.
Qed.

Lemma drop_while_fixed (c : codepoint) (s : str) :
  drop_while p (c :: s) = c :: s -> p c = false.
Proof.
  simpl. destruct (p c); [|reflexivity]. intros H.
  pose proof (drop_while_length s) as Hlen. rewrite H in Hlen.
  simpl in Hlen. lia.
Qed.

Lemma drop_while_idem (s : str) :
  drop_while p (drop_while p s) = drop_while p s.
Proof.
  induction s as [|c s IH]; simpl; [reflexivity|].
  destruct (p c) eqn:Hc; [exact IH|]. simpl. rewrite Hc. reflexivity.
Qed.

Lemma drop_while_all (ws s : str) :
  Forall (fun c => p c = true) ws -> drop_while p (ws ++ s) = drop_while p s.
Proof.
  induction 1 as [|c ws Hc _ IH]; simpl; [reflexivity|]. rewrite Hc. exact IH.
Qed.

Lemma drop_while_all_nil (ws : str) :
  Forall (fun c => p c = true) ws -> drop_while p ws = [].
Proof.
  intros H. rewrite <- (app_nil_r ws). rewrite (drop_while_all ws [] H).
  reflexivity.
Qed.

(** Dropping from a concatenation: either the whole first part goes, or
    the second part is not touched. *)
Lemma drop_while_app (s t : str) :
  drop_while p (s ++ t)
  = match drop_while p s with
    | [] => drop_while p t
    | c :: r => (c :: r) ++ t
    end.
Proof.
  induction s as [|c s IH]; simpl; [destruct (drop_while p t); reflexivity|].
  destruct (p c); [exact IH|reflexivity].
Qed.

End DropWhile.

Lemma rstrip_idem (s : str) : rstrip (rstrip s) = rstrip s.
Proof.
  unfold rstrip. rewrite rev_involutive, drop_while_idem. reflexivity.
Qed.

(** A suffix of a string without trailing whitespace has none either. *)
Lemma rstrip_suffix (a b : str) : rstrip (a ++ b) = a ++ b -> rstrip b = b.
Proof.
  unfold rstrip. intros H.
  apply (f_equal (@rev codepoint)) in H. rewrite rev_involutive in H.
  rewrite !rev_app_distr in H.
  destruct (rev b) as [|c t] eqn:Hb.
  - apply (f_equal (@rev codepoint)) in Hb. rewrite rev_involutive in Hb.
    subst b. reflexivity.
  - apply drop_while_fixed in H.
    rewrite <- (rev_involutive b), Hb. simpl drop_while. rewrite H. reflexivity.
Qed.

Lemma lstrip_suffix (s : str) : exists a, s = a ++ lstrip s.
Proof.
  unfold lstrip. induction s as [|c s [a Ha]]; [exists []; reflexivity|].
  simpl. destruct (isspace c).
  - exists (c :: a). simpl. f_equal. exact Ha.
  - exists []. reflexivity.
Qed.

(** [strip] is idempotent. *)
Lemma strip_idem (s : str) : strip (strip s) = strip s.
Proof.
  unfold strip at 1.
  assert (rstrip (strip s) = strip s) as ->.
  { unfold strip. destruct (lstrip_suffix (rstrip s)) as [a Ha].
    apply (rstrip_suffix a). rewrite <- Ha. apply rstrip_idem. }
  unfold strip, lstrip. apply drop_while_idem.
Qed.

(** Whitespace around a string does not change what [strip] returns. *)
Lemma strip_padded (pre s post : str) :
  spaces pre -> spaces post -> strip (pre ++ s ++ post) = strip s.
Proof.
  intros Hpre Hpost. unfold strip, rstrip, lstrip.
  rewrite app_assoc, rev_app_distr.
  rewrite (drop_while_all isspace (rev post))
    by (apply Forall_rev; exact Hpost).
  rewrite rev_app_distr, drop_while_app.
  destruct (drop_while isspace (rev s)) as [|c r].
  - rewrite (drop_while_all_nil isspace (rev pre))
      by (apply Forall_rev; exact Hpre).
    reflexivity.
  - rewrite rev_app_distr, rev_involutive.
    apply drop_while_all. exact Hpre.
Qed.

(** [get_channel_url] ignores whitespace around the identifier: an
    identifier padded with any whitespace characters on either side
    (spaces, tabs, newlines, U+00A0, U+3000, ...) is normalized as the bare
    one, and so is the already trimmed identifier. *)
Theorem get_channel_url_ignores_padding (pre channel_identifier post : str) :
  spaces pre -> spaces post ->
  get_channel_url (pre ++ channel_identifier ++ post)
  = get_channel_url channel_identifier
  /\ get_channel_url (strip channel_identifier)
     = get_channel_url channel_identifier.
Proof.
  intros Hpre Hpost. unfold get_channel_url.
  rewrite (strip_padded pre channel_identifier post Hpre Hpost), strip_idem.
  split; reflexivity.
Qed.

Lemma get_channel_url_ignores_padding_witness :
  get_channel_url ([0x09; 0xA0] ++ py "UC123" ++ [0x3000; 0x0A])
  = get_channel_url (py "UC123").
Proof.
  refine (proj1 (get_channel_url_ignores_padding [0x09; 0xA0] (py "UC123")
                   [0x3000; 0x0A] _ _));
    repeat constructor.
Defined.

Lemma startswith_refl (s : str) : startswith s s = true.
Proof. rewrite <- (app_nil_r s) at 2. apply startswith_app. Qed.

Lemma contains_suffix (sub a : str) : contains sub (a ++ sub) = true.
Proof.
  induction a as [|c a IH]; simpl app.
  - destruct sub; simpl; [reflexivity|].
    rewrite N.eqb_refl, startswith_refl. reflexivity.
  - simpl. rewrite IH. apply orb_true_r.
Qed.

Lemma startswith_head (c : codepoint) (p s : str) :
  startswith (c :: p) s = true -> exists t, s = c :: t.
Proof.
  destruct s as [|b s]; simpl; [discriminate|].
  intros H. apply andb_prop in H as [H _]. apply N.eqb_eq in H. subst b. eauto.
Qed.

(** A string with a URL scheme starts with the letter h. *)
Lemma scheme_head (s : str) :
  startswith_any [py "http://"; py "https://"] s = true ->
  exists t, s = 0x68 :: t.
Proof.
  unfold startswith_any. cbn [existsb]. rewrite orb_false_r.
  intros H. apply orb_prop in H as [H|H].
  - change (py "http://") with (0x68 :: py "ttp://") in H.
    exact (startswith_head _ _ s H).
  - change (py "https://") with (0x68 :: py "ttps://") in H.
    exact (startswith_head _ _ s H).
Qed.

Lemma rstrip_last (a : str) (c : codepoint) :
  isspace c = false -> rstrip (a ++ [c]) = a ++ [c].
Proof.
  intros Hc. unfold rstrip. rewrite rev_app_distr. simpl. rewrite Hc.
  simpl. rewrite rev_involutive. reflexivity.
Qed.

Lemma strip_suffix_videos (a : str) :
  startswith_any [py "http://"; py "https://"] (a ++ py "/videos") = true ->
  strip (a ++ py "/videos") = a ++ py "/videos".
Proof.
  intros H. destruct (scheme_head _ H) as [t Ht].
  unfold strip.
  assert (rstrip (a ++ py "/videos") = a ++ py "/videos") as ->.
  { change (py "/videos") with (py "/video" ++ [0x73]).
    rewrite app_assoc. apply rstrip_last. reflexivity. }
  rewrite Ht. reflexivity.
Qed.

(** A URL with a scheme that ends with "/videos" is returned as it is. *)
Lemma get_channel_url_listing_fixed (a : str) :
  startswith_any [py "http://"; py "https://"] (a ++ py "/videos") = true ->
  get_channel_url (a ++ py "/videos") = Some (a ++ py "/videos").
Proof.
  intros H. unfold get_channel_url.
  rewrite (strip_suffix_videos a H), H, contains_suffix.
  destruct (contains (py "youtube.com/watch?v=") (a ++ py "/videos"));
    reflexivity.
Qed.

(** [get_channel_url] is idempotent on its results that still have a URL
    scheme: normalizing such a result again returns it unchanged. Every
    result built from a channel ID or from a handle is one of them. (A
    result without a scheme comes only from an input made of a scheme and
    slashes, as "http://", which becomes "http:/videos".) *)
Theorem get_channel_url_idempotent (channel_identifier url : str) :
  get_channel_url channel_identifier = Some url ->
  (startswith_any [py "http://"; py "https://"] (strip channel_identifier) = false ->
   startswith_any [py "http://"; py "https://"] url = true)
  /\ (startswith_any [py "http://"; py "https://"] url = true ->
      get_channel_url url = Some url).
Proof.
  unfold get_channel_url at 1.
  destruct (startswith_any _ (strip channel_identifier)) eqn:Hscheme.
  - intros Hurl. split; [discriminate|]. intros Hurl_scheme.
    destruct (contains (py "youtube.com/watch?v=") (strip channel_identifier))
      eqn:Hwatch.
    + assert (url = strip channel_identifier) as -> by congruence.
      unfold get_channel_url.
      rewrite strip_idem, Hscheme, Hwatch. reflexivity.
    + destruct (contains (py "/videos") (strip channel_identifier)) eqn:Hv;
        cbn [negb] in Hurl.
      * assert (url = strip channel_identifier) as -> by congruence.
        unfold get_channel_url.
        rewrite strip_idem, Hscheme, Hwatch, Hv. reflexivity.
      * assert (url = rstrip_chars (py "/") (strip channel_identifier)
                      ++ py "/videos") as -> by congruence.
        apply get_channel_url_listing_fixed. exact Hurl_scheme.
  - destruct (startswith (py "UC") (strip channel_identifier)).
    + intros Hurl.
      assert (url = (py "https://www.youtube.com/channel/"
                     ++ strip channel_identifier) ++ py "/videos") as ->
        by (rewrite <- app_assoc; congruence).
      assert (startswith_any [py "http://"; py "https://"]
                ((py "https://www.youtube.com/channel/"
                  ++ strip channel_identifier) ++ py "/videos") = true) as Hs
        by reflexivity.
      split; [intros _; exact Hs|]. intros _.
      apply get_channel_url_listing_fixed. exact Hs.
    + destruct (contains (py "@") (strip channel_identifier)); [|discriminate].
      intros Hurl.
      assert (url = (py "https://www.youtube.com/"
                     ++ rstrip_chars (py "/") (strip channel_identifier))
                    ++ py "/videos") as ->
        by (rewrite <- app_assoc; congruence).
      assert (startswith_any [py "http://"; py "https://"]
                ((py "https://www.youtube.com/"
                  ++ rstrip_chars (py "/") (strip channel_identifier))
                 ++ py "/videos") = true) as Hs
        by reflexivity.
      split; [intros _; exact Hs|]. intros _.
      apply get_channel_url_listing_fixed. exact Hs.
Qed.

Lemma get_channel_url_idempotent_witness :
  get_channel_url (py "https://www.youtube.com/@examplehandle/videos")
  = Some (py "https://www.youtube.com/@examplehandle/videos").
Proof.
  refine (proj2 (get_channel_url_idempotent (py " @examplehandle/ ")
                   (py "https://www.youtube.com/@examplehandle/videos") _) _);
    vm_compute; reflexivity.
Defined.

(** The one kind of result that is no fixed point. *)
Example get_channel_url_bare_scheme :
  get_channel_url (py "http://") = Some (py "http:/videos")
  /\ get_channel_url (py "http:/videos") = None.
Proof. split; vm_compute; reflexivity. Qed.

(** ** More on main.py *)

Lemma contains_startswith (sub s : str) :
  startswith sub s = true -> contains sub s = true.
Proof. destruct s; simpl; intros ->; reflexivity. Qed.

Lemma contains_infix (sub a b : str) : contains sub (a ++ sub ++ b) = true.
Proof.
  induction a as [|c a IH]; simpl app.
  - apply contains_startswith, startswith_app.
  - cbn [contains]. rewrite IH. apply orb_true_r.
Qed.

Lemma watch_url_contains (video_id : str) :
  contains (py "youtube.com/watch?v=") (watch_url video_id) = true.
Proof.
  unfold watch_url.
  change (py "https://www.youtube.com/watch?v=")
    with (py "https://www." ++ py "youtube.com/watch?v=").
  rewrite <- app_assoc. apply contains_infix.
Qed.

Lemma omap_id_length (A : Type) (l : list (option A)) :
  (length (omap id l) <= length l)%nat.
Proof.
  induction l as [|[x|] l IH].
  - reflexivity.
  - change (S (length (omap id l)) <= S (length l))%nat. lia.
  - change (length (omap id l) <= S (length l))%nat. lia.
Qed.

Lemma video_urls_of_map (entries : list (option str)) :
  video_urls_of entries = map watch_url (omap id entries).
Proof.
  induction entries as [|[video_id|] entries IH]; simpl; [reflexivity| |exact IH].
  rewrite IH. reflexivity.
Qed.

(** [list_videos_in_channel]: for a watch URL it returns that URL alone and
    does not call yt-dlp; otherwise it calls yt-dlp once and returns one
    watch URL per entry of the listing that has an id, in the order of the
    listing, or raises what yt-dlp raised. Every URL it returns is a watch
    URL, so listing it again returns it alone, with no call of yt-dlp. *)
Theorem list_videos_in_channel_result (url : str) (ws : nat -> world) :
  let r := run (list_videos_in_channel (Some url)) ws in
  (if contains (py "youtube.com/watch?v=") url
   then r = ([], Returned [url])
   else r = ([existT (EExtractInfoFlat url) (ws O (EExtractInfoFlat url))],
             match ws O (EExtractInfoFlat url) with
             | inl exc => Raised (External FromListing exc)
             | inr entries =>
                 Returned (map watch_url (omap id (default [] entries)))
             end))
  /\ (forall video_urls : list str,
        r.2 = Returned video_urls ->
        (length video_urls <= 1
         \/ exists entries, ws O (EExtractInfoFlat url) = inr (Some entries)
                            /\ length video_urls <= length entries)%nat
        /\ Forall (fun u => forall ws' : nat -> world,
                     run (list_videos_in_channel (Some u)) ws'
                     = ([], Returned [u]))
                  video_urls).
Proof.
  intros r. subst r. unfold list_videos_in_channel.
  destruct (contains (py "youtube.com/watch?v=") url) eqn:Hwatch.
  - split; [reflexivity|]. cbn [run snd]. intros video_urls [= <-].
    split; [left; simpl; lia|]. constructor; [|constructor].
    intros ws'. rewrite Hwatch. reflexivity.
  - cbn [run]. destruct (ws O (EExtractInfoFlat url)) as [exc|entries];
      cbn [run fst snd].
    + split; [reflexivity|]. discriminate.
    + rewrite video_urls_of_map. split; [reflexivity|].
      intros video_urls [= <-]. split.
      * destruct entries as [entries|]; [right|left; simpl; lia].
        exists entries. split; [reflexivity|]. cbn [default].
        rewrite length_map. apply omap_id_length.
      * apply Forall_map. apply Forall_forall. intros video_id _ ws'.
        cbn [compose]. rewrite watch_url_contains. reflexivity.
Qed.

(** [process_channel] as a task of the event loop, run up to its first
    wait. With a free slot of the semaphore it creates exactly one task
    per video that the lister returned, in the lister's order:
    [download_video_with_retries] of that video, into the channel's
    ["download_directory"] when the key is present and into the default
    directory otherwise, with the run's cookies file and rate limit; then
    it waits in its [gather] for exactly these tasks, the semaphore being
    as before. It creates none when ["url"] is missing or the lister
    raised. With no free slot and a video listed, it creates no task: it
    stays at its first [async with semaphore], where it cannot take a
    step. *)
Theorem process_channel_creates_downloads (channel_config : channel_config)
    (default_download_directory : str) (cookies_file : option str)
    (rate_limit : option Z) (w : world) (s : loop) (i : nat) (t : task) :
  tasks s !! i = Some t ->
  code t = process_channel channel_config default_download_directory
             cookies_file rate_limit ->
  waiting t = false ->
  ((0 < sem s)%nat ->
   exists (n : nat) (s' : loop),
     run_loop (replicate n (i, w)) s = Some s'
     /\ exists c' : coro unit,
          tasks s'
          = <[i := Task c' false (holds t) (callbacks t)]> (tasks s)
            ++ map (fun video_url =>
                      Task (download_video_with_retries video_url
                              (default default_download_directory
                                 (cfg_download_directory channel_config))
                              cookies_file rate_limit)
                           false 0 [])
                   (listed_videos channel_config (fun _ => w))
          /\ sem s' = sem s
          /\ ((exists x, c' = Raise x)
              /\ listed_videos channel_config (fun _ => w) = []
              \/ exists k,
                   c' = Vis (EGather
                               (seq (length (tasks s))
                                  (length (listed_videos channel_config
                                             (fun _ => w))))) k))
  /\ (sem s = 0%nat ->
      listed_videos channel_config (fun _ => w) <> [] ->
      exists (n : nat) (s' : loop),
        run_loop (replicate n (i, w)) s = Some s'
        /\ (exists k,
              tasks s'
              = <[i := Task (Vis EAcquire k) false (holds t) (callbacks t)]>
                  (tasks s))
        /\ step i w s' = None).
Proof.
  intros Hi Hc Hw. split.
  - intros Hsm. exact (process_channel_spawns _ _ _ _ w s i t Hi Hc Hw Hsm).
  - intros Hsm Hsome.
    exact (process_channel_blocked _ _ _ _ w s i t Hi Hc Hw Hsm Hsome).
Qed.

(** The channel of the two-item configuration as the only task of a loop:
    with one free slot it creates the tasks of its two items; with none
    it creates no task and is stuck. *)
Lemma process_channel_creates_downloads_witness :
  (exists (n : nat) (s' : loop),
     run_loop (replicate n (0%nat, two_items_world))
       (Loop [Task (process_channel
                      (ChannelConfig
                         (Some (py "https://www.youtube.com/c/Example")) None)
                      (py "downloads") None None) false 0 []]
             1 None [])
     = Some s'
     /\ map code (drop 1 (tasks s'))
        = [download_video_with_retries
             (py "https://www.youtube.com/watch?v=a") (py "downloads") None None;
           download_video_with_retries
             (py "https://www.youtube.com/watch?v=b") (py "downloads") None None])
  /\ (exists (n : nat) (s' : loop),
        run_loop (replicate n (0%nat, two_items_world))
          (Loop [Task (process_channel
                         (ChannelConfig
                            (Some (py "https://www.youtube.com/c/Example")) None)
                         (py "downloads") None None) false 0 []]
                0 None [])
        = Some s'
        /\ length (tasks s') = 1%nat
        /\ step 0 two_items_world s' = None).
Proof.
  split.
  - destruct (proj1 (process_channel_creates_downloads
                (ChannelConfig (Some (py "https://www.youtube.com/c/Example")) None)
                (py "downloads") None None two_items_world
                (Loop [Task (process_channel
                               (ChannelConfig
                                  (Some (py "https://www.youtube.com/c/Example"))
                                  None)
                               (py "downloads") None None) false 0 []]
                      1 None [])
                0%nat _ eq_refl eq_refl eq_refl) ltac:(cbn; lia))
      as (n & s' & Hrun & c' & Htasks & _).
    exists n, s'. split; [exact Hrun|]. rewrite Htasks. reflexivity.
  - destruct (proj2 (process_channel_creates_downloads
                (ChannelConfig (Some (py "https://www.youtube.com/c/Example")) None)
                (py "downloads") None None two_items_world
                (Loop [Task (process_channel
                               (ChannelConfig
                                  (Some (py "https://www.youtube.com/c/Example"))
                                  None)
                               (py "downloads") None None) false 0 []]
                      0 None [])
                0%nat _ eq_refl eq_refl eq_refl) eq_refl
                ltac:(vm_compute; discriminate))
      as (n & s' & Hrun & [k Htasks] & Hstep).
    exists n, s'. split; [exact Hrun|]. rewrite Htasks.
    split; [reflexivity|exact Hstep].
Defined.

(** [process_channel] on a channel entry it cannot resolve. Without the
    ["url"] key it raises [KeyError] before anything is logged. With an
    identifier for which [get_channel_url] returns [None] it logs
    "Processing channel URL: None" and raises [TypeError]; in both cases
    yt-dlp is not called and no task is created. Identifiers with no URL
    scheme, no leading "UC" and no "@" are of the second kind. *)
Theorem process_channel_unresolved (channel_config : channel_config)
    (default_download_directory : str) (cookies_file : option str)
    (rate_limit : option Z) (ws : nat -> world) :
  (cfg_url channel_config = None ->
   run (process_channel channel_config default_download_directory cookies_file
          rate_limit) ws
   = ([], Raised (KeyError (py "url"))))
  /\ (forall raw : str,
        cfg_url channel_config = Some raw ->
        get_channel_url raw = None ->
        run (process_channel channel_config default_download_directory
               cookies_file rate_limit) ws
        = ([log_obs INFO (py "Processing channel URL: None")],
           Raised (TypeError (py "argument of type 'NoneType' is not iterable")))
        /\ forall next,
             created (process_channel channel_config default_download_directory
                        cookies_file rate_limit) ws next = [])
  /\ (forall raw : str,
        startswith_any [py "http://"; py "https://"] (strip raw) = false ->
        startswith (py "UC") (strip raw) = false ->
        contains (py "@") (strip raw) = false ->
        get_channel_url raw = None).
Proof.
  split_and!.
  - intros Hurl. unfold process_channel. rewrite Hurl. reflexivity.
  - intros raw Hraw Hnone. unfold process_channel. rewrite Hraw.
    unfold mbind, coro_bind. cbn [bind]. rewrite Hnone.
    unfold list_videos_in_channel, created.
    cbn [bind log perform run created_from fmt_url default].
    destruct (ws O (ELog INFO (py "Processing channel URL: " ++ py "None"))).
    split; reflexivity.
  - intros raw Hscheme Hid Hhandle. unfold get_channel_url.
    rewrite Hscheme, Hid, Hhandle. reflexivity.
Qed.

Lemma process_channel_unresolved_witness :
  (run (process_channel (ChannelConfig (Some (py "examplechannel")) None)
          (py "downloads") None None) (fun _ => calm)).2
  = Raised (TypeError (py "argument of type 'NoneType' is not iterable")).
Proof.
  destruct (process_channel_unresolved
              (ChannelConfig (Some (py "examplechannel")) None)
              (py "downloads") None None (fun _ => calm)) as (_ & H & _).
  destruct (H (py "examplechannel") eq_refl ltac:(vm_compute; reflexivity))
    as [Hrun _].
  rewrite Hrun. reflexivity.
Defined.







(** ** More on downloader.py *)

(** [download_video] sleeps exactly when the attempt succeeds and
    [rate_limit] is truthy: a run that returns has slept [rate_limit] once,
    after its last fetch, for every non-zero [rate_limit], a negative one
    included ([asyncio.sleep] is called with it); there is no sleep for 0
    or [None], and none in a run that raises. The sleep is part of the
    attempt: a delay that [asyncio.sleep] refuses (2^1024 - 2^970 or
    more) makes every attempt fail, so that the run never returns and
    ends with [DownloadError] after [RETRY_LIMIT] fetches, whatever they
    gave. *)
Theorem download_video_sleeps_when_truthy (video_url download_directory : str)
    (cookies_file : option str) (rate_limit : option Z) (ws : nat -> world) :
  let r := run (download_video video_url download_directory cookies_file
                  rate_limit) ws in
  sleeps r.1
  = match r.2, rate_limit with
    | Returned _, Some delay => if (delay =? 0)%Z then [] else [delay]
    | _, _ => []
    end
  /\ (r.2 = Returned tt ->
      sleep_exc rate_limit = None
      /\ exists rs, fetches r.1 = rs ++ [Completed] /\ Forall failed rs)
  /\ (forall delay : Z,
        rate_limit = Some delay -> delay <> 0%Z ->
        sleep_overflows delay = true ->
        r.2 = Raised (DownloadError (retries_exhausted_msg video_url))
        /\ length (fetches r.1) = RETRY_LIMIT
        /\ at_level WARNING (logged_lines r.1)
           = attempt_warnings video_url rate_limit 0 (fetches r.1)).
Proof.
  intros r. subst r.
  destruct (after_success_quiet rate_limit) as (Hf & _ & _).
  destruct (download_video_run video_url download_directory cookies_file
              rate_limit ws) as (rs & Hrs & [(_ & Hs & Hrun)|[Hn Hrun]]);
    rewrite Hrun; cbn [fst snd]; split_and!.
  - rewrite sleeps_app, sleeps_failed_attempts. unfold after_success, truthy_int.
    destruct rate_limit as [delay|]; [|reflexivity].
    destruct (delay =? 0)%Z; reflexivity.
  - intros _. split; [exact Hs|]. exists rs.
    change (fetch_obs video_url download_directory cookies_file Completed
            :: after_success rate_limit)
      with ([fetch_obs video_url download_directory cookies_file Completed]
            ++ after_success rate_limit).
    rewrite !fetches_app, fetches_failed_attempts, Hf. split; [reflexivity|].
    eapply Forall_impl; [exact Hrs|]. intros x. apply (lost_failed _ x Hs).
  - intros delay -> Hd Ho. exfalso. unfold sleep_exc, truthy_int in Hs.
    rewrite Ho in Hs. destruct (Z.eqb_spec delay 0); [contradiction|discriminate].
  - apply sleeps_failed_attempts.
  - discriminate.
  - intros delay _ _ _. rewrite fetches_failed_attempts.
    split_and!; [reflexivity|exact Hn|apply warnings_failed_attempts].
Qed.

Example download_video_negative_rate :
  sleeps (run (download_video (py "v") (py "d") None (Some (-3)%Z))
            (fun _ => calm)).1 = [(-3)%Z]
  /\ sleeps (run (download_video (py "v") (py "d") None (Some 0%Z))
               (fun _ => calm)).1 = [].
Proof. split; vm_compute; reflexivity. Qed.

(** The end of a [with] block whose exit is one call: the body's events,
    then the exit, and the body's outcome. *)
Lemma run_finally_perform (Q : event -> bool) (T : exn -> Prop) (A : Type)
    (c : coro A) (e : event) :
  plain Q T c ->
  forall ws : nat -> world,
  run (finally c (perform e)) ws
  = ((run c ws).1 ++ [existT e (ws (length (run c ws).1) e)], (run c ws).2).
Proof.
  induction c as [R r|R x|R|R e' k IH|R child IHc cbs k IH];
    cbn [plain finally].
  - intros _ ws. reflexivity.
  - intros _ ws. reflexivity.
  - intros [].
  - intros [_ Hk] ws. cbn [run]. rewrite (IH _ (Hk _)).
    destruct (run (k (ws O e')) (fun n => ws (S n))) as [tr o]. reflexivity.
  - intros [].
Qed.

(** [sem_download] enters the semaphore once, as its first event, and
    leaves it once, as its last event, in every run: whether the probe
    failed, the download succeeded or the retries were exhausted. Between
    the two it only probes, fetches, sleeps and logs, and it returns
    normally. *)
Theorem sem_download_releases_its_slot (download_dir : str)
    (rate_limit : option Z) (video_url : str) (ws : nat -> world) :
  let r := run (sem_download download_dir rate_limit video_url) ws in
  r.2 = Returned tt
  /\ exists body : list obs,
       r.1 = existT EAcquire tt :: body ++ [existT ERelease tt]
       /\ Forall (fun o => is_item_event (projT1 o) = true) body.
Proof.
  intros r. subst r. unfold sem_download, async_with_semaphore. cbn [run].
  destruct (ws O EAcquire).
  rewrite (run_finally_perform _ _ _ _ ERelease
             (sem_download_body_plain download_dir rate_limit video_url)).
  destruct (plain_run _ _ _ _
              (sem_download_body_plain download_dir rate_limit video_url)
              (fun n => ws (S n))) as [Hev Hout].
  destruct (run _ (fun n => ws (S n))) as [body out]. cbn [fst snd] in *.
  destruct (ws (S (length body)) ERelease).
  split.
  - destruct out as [[]|x| |]; [reflexivity|destruct Hout..].
  - exists body. split; [reflexivity|exact Hev].
Qed.

(** With a [max_concurrent] that is not negative, neither
    [download_videos_in_channel] nor any task it creates ever ends with an
    exception or runs out of fuel: probe failures and exhausted retries
    stay inside [sem_download], so its [gather] never raises. *)
Lemma download_videos_in_channel_confined (channel_videos : list str)
    (download_dir : str) (max_concurrent : Z) (rate_limit : option Z) :
  (0 <= max_concurrent)%Z ->
  confined (fun _ => true) no_one
    (download_videos_in_channel channel_videos download_dir max_concurrent
       rate_limit).
Proof.
  intros Hmax. unfold download_videos_in_channel, Semaphore, with_tqdm.
  unfold mbind, coro_bind.
  destruct (Z.ltb_spec max_concurrent 0) as [|_]; [lia|].
  cbn [perform bind confined]. split; [reflexivity|]. intros _ _.
  split; [reflexivity|]. intros _ _.
  apply confined_finally; [|apply confined_perform; reflexivity].
  apply confined_bind; [|intros tasks; apply confined_gather; reflexivity].
  generalize (@nil nat).
  induction channel_videos as [|video_url rest IH]; intros tasks;
    cbn [create_sem_downloads]; [exact I|].
  unfold mbind, coro_bind, create_task. cbn [bind confined]. split.
  - apply plain_confined.
    apply (plain_mono is_sem_item_event (fun _ => true) no_one no_one);
      [reflexivity|auto|apply sem_download_plain].
  - intros i. apply IH.
Qed.

Theorem download_videos_in_channel_never_raises (channel_videos : list str)
    (download_dir : str) (max_concurrent : Z) (rate_limit : option Z)
    (s : loop) :
  (0 <= max_concurrent)%Z ->
  reachable (boot (download_videos_in_channel channel_videos download_dir
                     max_concurrent rate_limit)) s ->
  Forall (fun t => (forall x, code t <> Raise x) /\ code t <> OutOfFuel)
         (tasks s).
Proof.
  intros Hmax Hreach.
  pose proof (reachable_confined (fun _ => true) no_one _ s
                (download_videos_in_channel_confined channel_videos
                   download_dir max_concurrent rate_limit Hmax) Hreach) as Hall.
  unfold all_confined in Hall. eapply Forall_impl; [exact Hall|]. cbn.
  intros t Ht. split.
  - intros x Hc. rewrite Hc in Ht. exact Ht.
  - intros Hc. rewrite Hc in Ht. exact Ht.
Qed.

Lemma download_videos_in_channel_never_raises_witness :
  exists s : loop,
    reachable (boot (download_videos_in_channel two_videos (py "dir") 2 None)) s
    /\ Forall (fun t => (forall x, code t <> Raise x) /\ code t <> OutOfFuel)
              (tasks s).
Proof.
  destruct two_videos_reachable as (s & Hreach & _).
  exists s. split; [exact Hreach|].
  apply (download_videos_in_channel_never_raises two_videos (py "dir") 2%Z None s);
    [lia|exact Hreach].
Defined.

(** The three ways a run of [sem_download] goes. *)
Lemma sem_download_run (download_dir : str) (rate_limit : option Z)
    (video_url : str) (ws : nat -> world) :
  let p : obs := existT (ERunExtractMetadata video_url)
                        (ws 1%nat (ERunExtractMetadata video_url)) in
  exists rs : list fetch_result,
    Forall (lost rate_limit) rs /\
    (run (sem_download download_dir rate_limit video_url) ws
     = ([existT EAcquire tt; p; log_obs WARNING (skipping_msg video_url);
         existT ERelease tt], Returned tt)
     \/
     (length rs < RETRY_LIMIT)%nat /\
     sleep_exc rate_limit = None /\
     run (sem_download download_dir rate_limit video_url) ws
     = (existT EAcquire tt :: p
        :: (failed_attempts video_url download_dir None rate_limit 0 rs
            ++ fetch_obs video_url download_dir None Completed
               :: after_success rate_limit)
        ++ [existT ERelease tt], Returned tt)
     \/
     length rs = RETRY_LIMIT /\
     run (sem_download download_dir rate_limit video_url) ws
     = (existT EAcquire tt :: p
        :: (failed_attempts video_url download_dir None rate_limit 0 rs
            ++ [log_obs ERROR (retries_exhausted_msg video_url)])
        ++ [existT ERelease tt], Returned tt)).
Proof.
  intros p. subst p. unfold sem_download, async_with_semaphore. cbn [run].
  destruct (ws O EAcquire).
  rewrite (run_finally_perform _ _ _ _ ERelease
             (sem_download_body_plain download_dir rate_limit video_url)).
  unfold mbind, coro_bind. unfold fetch_video_metadata. cbn [bind run].
  destruct (ws 1%nat (ERunExtractMetadata video_url)) as [exc|[metadata|]];
    cbn [bind].
  2: { rewrite run_try_except.
       match goal with
       | |- context [run (download_video _ _ _ _) ?w] =>
           destruct (download_video_run video_url download_dir None rate_limit w)
             as (rs & Hrs & [(Hn & Hs & Hrun)|[Hn Hrun]])
       end; rewrite Hrun; cbn [fst snd]; exists rs; (split; [exact Hrs|]);
         right; [left|right]; (split; [exact Hn|]).
       - split; [exact Hs|]. destruct (ws _ ERelease). reflexivity.
       - cbn [exn_str]. unfold log, perform. cbn [run fst snd].
         destruct (ws _ (ELog ERROR _)). destruct (ws _ ERelease). reflexivity. }
  all: exists []; (split; [constructor|]); left;
    unfold log, perform; cbn [run fst snd app length];
    destruct (ws 2%nat (ELog WARNING (skipping_msg video_url)));
    destruct (ws 3%nat ERelease); reflexivity.
Qed.

(** [sem_download] probes its item once. It logs at error level only when
    [download_video] gave up: then all [RETRY_LIMIT] attempts failed (the
    fetch raised, or [asyncio.sleep] refused the delay) and the one error
    line is the message of the [DownloadError], "Failed to download <url>
    after 3 retries."; the exception itself stays inside. In every other
    run, the item skipped or downloaded, there is no error line. When
    [asyncio.sleep] accepts the delay, an attempt fails exactly when its
    fetch does. *)
Theorem sem_download_logs_exhausted_retries (download_dir : str)
    (rate_limit : option Z) (video_url : str) (ws : nat -> world) :
  let tr := (run (sem_download download_dir rate_limit video_url) ws).1 in
  probes tr = 1%nat
  /\ (length (fetches tr) = RETRY_LIMIT
      /\ Forall (lost rate_limit) (fetches tr)
      /\ at_level ERROR (logged_lines tr) = [retries_exhausted_msg video_url]
      \/
      (fetches tr = []
       \/ sleep_exc rate_limit = None
          /\ exists rs, fetches tr = rs ++ [Completed] /\ Forall failed rs)
      /\ at_level ERROR (logged_lines tr) = [])
  /\ (sleep_exc rate_limit = None ->
      forall r : fetch_result, lost rate_limit r <-> failed r)
  /\ (forall delay : Z,
        rate_limit = Some delay -> delay <> 0%Z ->
        sleep_overflows delay = true ->
        forall r : fetch_result, lost rate_limit r).
Proof.
  intros tr. subst tr.
  assert (forall delay : Z,
            rate_limit = Some delay -> delay <> 0%Z ->
            sleep_overflows delay = true ->
            forall r : fetch_result, lost rate_limit r) as Hover.
  { intros delay -> Hd Ho r.
    apply (lost_always (Some delay) (exn_str sleep_overflow)).
    apply sleep_exc_large, Ho. }
  assert (sleep_exc rate_limit = None ->
          forall r : fetch_result, lost rate_limit r <-> failed r) as Hsame.
  { intros Hs r. apply lost_failed, Hs. }
  destruct (sem_download_run download_dir rate_limit video_url ws)
    as (rs & Hrs & [Hrun|[(Hn & Hs & Hrun)|[Hn Hrun]]]); rewrite Hrun; cbn [fst].
  - split_and!; [reflexivity| |exact Hsame|exact Hover].
    right. split; [left|]; reflexivity.
  - destruct (after_success_quiet rate_limit) as (Hf & Hp & Hl).
    match goal with
    | |- context [?a :: ?p :: ?l ++ [?r]] =>
        change (a :: p :: l ++ [r]) with ([a; p] ++ l ++ [r])
    end.
    rewrite !probes_app, !fetches_app, !logged_lines_app, !at_level_app.
    rewrite probes_failed_attempts, fetches_failed_attempts,
      errors_failed_attempts.
    change (fetch_obs video_url download_dir None Completed
            :: after_success rate_limit)
      with ([fetch_obs video_url download_dir None Completed]
            ++ after_success rate_limit).
    rewrite !probes_app, !fetches_app, !logged_lines_app, !at_level_app.
    rewrite Hf, Hp, Hl.
    split_and!; [reflexivity| |exact Hsame|exact Hover].
    right. split.
    + right. split; [exact Hs|]. exists rs.
      split; [cbn; rewrite app_nil_r; reflexivity|].
      eapply Forall_impl; [exact Hrs|]. intros x. apply (lost_failed _ x Hs).
    + reflexivity.
  - match goal with
    | |- context [?a :: ?p :: ?l ++ [?r]] =>
        change (a :: p :: l ++ [r]) with ([a; p] ++ l ++ [r])
    end.
    rewrite !probes_app, !fetches_app, !logged_lines_app, !at_level_app.
    rewrite probes_failed_attempts, fetches_failed_attempts,
      errors_failed_attempts.
    split_and!; [reflexivity| |exact Hsame|exact Hover].
    left. cbn. rewrite !app_nil_r.
    split_and!; [exact Hn|exact Hrs|reflexivity].
Qed.

Example sem_download_retries_exhausted :
  at_level ERROR
    (logged_lines (run (sem_download (py "d") None (py "u"))
                     (fun _ => fetch_fails (py "boom"))).1)
  = [py "Failed to download u after 3 retries."].
Proof. vm_compute. reflexivity. Qed.

(** ** The error lines of [download_video_with_retries] *)

Lemma failed_after_retries_not_error_processing (video_url : str) (x e : exn) :
  failed_after_retries_msg video_url x <> error_processing_msg video_url e.
Proof.
  unfold failed_after_retries_msg, error_processing_msg. intros H.
  apply (f_equal (hd 0)) in H. vm_compute in H. discriminate.
Qed.

(** [download_video_with_retries] logs at error level only when
    [download_video] gave up, all its [RETRY_LIMIT] attempts having
    failed (the fetch raised, or [asyncio.sleep] refused the delay), and
    then one line: "Failed to download video <url> after retries: Failed
    to download <url> after 3 retries.". A run whose last attempt
    succeeded has no error line. Its second handler, [except Exception],
    never runs, because [DownloadError] is all that [download_video]
    raises: no run logs "Error processing video <url>: ...". *)
Theorem download_video_with_retries_error_lines
    (video_url download_directory : str) (cookies_file : option str)
    (rate_limit : option Z) (ws : nat -> world) :
  let tr := (run (download_video_with_retries video_url download_directory
                    cookies_file rate_limit) ws).1 in
  (sleep_exc rate_limit = None
   /\ (exists rs, fetches tr = rs ++ [Completed] /\ Forall failed rs)
   /\ at_level ERROR (logged_lines tr) = []
   \/
   length (fetches tr) = RETRY_LIMIT
   /\ Forall (lost rate_limit) (fetches tr)
   /\ at_level ERROR (logged_lines tr)
      = [py "Failed to download video " ++ video_url
         ++ py " after retries: Failed to download " ++ video_url
         ++ py " after 3 retries."])
  /\ (forall e : exn,
        ~ In (error_processing_msg video_url e)
             (at_level ERROR (logged_lines tr)))
  /\ (sleep_exc rate_limit = None ->
      forall r : fetch_result, lost rate_limit r <-> failed r)
  /\ (forall delay : Z,
        rate_limit = Some delay -> delay <> 0%Z ->
        sleep_overflows delay = true ->
        forall r : fetch_result, lost rate_limit r).
Proof.
  intros tr. subst tr.
  assert (forall delay : Z,
            rate_limit = Some delay -> delay <> 0%Z ->
            sleep_overflows delay = true ->
            forall r : fetch_result, lost rate_limit r) as Hover.
  { intros delay -> Hd Ho r.
    apply (lost_always (Some delay) (exn_str sleep_overflow)).
    apply sleep_exc_large, Ho. }
  assert (sleep_exc rate_limit = None ->
          forall r : fetch_result, lost rate_limit r <-> failed r) as Hsame.
  { intros Hs r. apply lost_failed, Hs. }
  destruct (download_video_with_retries_run video_url download_directory
              cookies_file rate_limit ws)
    as (rs & Hrs & [(Hn & Hs & _ & Hrun)|(Hn & _ & Hrun)]);
    rewrite Hrun; cbn [fst].
  - destruct (after_success_quiet rate_limit) as (Hf & Hp & Hl).
    change (fetch_obs video_url download_directory cookies_file Completed
            :: after_success rate_limit)
      with ([fetch_obs video_url download_directory cookies_file Completed]
            ++ after_success rate_limit).
    rewrite !fetches_app, !logged_lines_app, !at_level_app.
    rewrite fetches_failed_attempts, errors_failed_attempts, Hf, Hl.
    rewrite at_level_fetch_obs by discriminate.
    split_and!; [|intros e []|exact Hsame|exact Hover].
    left. split_and!; [exact Hs| |reflexivity].
    exists rs. split; [reflexivity|].
    eapply Forall_impl; [exact Hrs|]. intros x. apply (lost_failed _ x Hs).
  - rewrite !fetches_app, !logged_lines_app, !at_level_app.
    rewrite fetches_failed_attempts, errors_failed_attempts.
    cbn [fetches omap log_obs fetch_of logged_lines flat_map lines_of at_level
         level_eqb fst snd app]. rewrite !app_nil_r.
    split_and!; [| |exact Hsame|exact Hover].
    + right. split_and!; [exact Hn|exact Hrs|]. reflexivity.
    + intros e [H|[]].
      exact (failed_after_retries_not_error_processing video_url _ e H).
Qed.

(** ** The edges of [--max-concurrent] and of the configuration *)

Lemma stalled_bind (A B : Type) (c : coro A) (f : A -> coro B) :
  stalled c -> (forall r, stalled (f r)) -> stalled (bind c f).
Proof.
  revert B f.
  induction c as [R r|R x|R|R e k IH|R child IHc cbs k IH]; intros B f;
    cbn [bind stalled]; auto.
  - intros Hk Hf. destruct e; cbn in Hk |- *; auto.
    destruct Hk as [Hv Hk]. auto.
  - intros [Hc Hk] Hf. split; [exact Hc|]. intros i. apply IH; auto.
Qed.

Lemma log_stalled (lvl : level) (msg : str) : stalled (log lvl msg).
Proof. intros a. exact I. Qed.

Lemma create_downloads_stalled (video_urls : list str) (download_directory : str)
    (cookies_file : option str) (rate_limit : option Z) (tasks : list nat) :
  stalled (create_downloads video_urls download_directory cookies_file
             rate_limit tasks).
Proof. destruct video_urls; exact I. Qed.

Lemma process_channel_stalled (channel_config : channel_config)
    (default_download_directory : str) (cookies_file : option str)
    (rate_limit : option Z) :
  stalled (process_channel channel_config default_download_directory
             cookies_file rate_limit).
Proof.
  unfold process_channel. unfold_bind.
  apply stalled_bind; [destruct (cfg_url channel_config); exact I|].
  intros raw. apply stalled_bind; [apply log_stalled|].
  intros _. apply stalled_bind.
  { unfold list_videos_in_channel.
    destruct (get_channel_url raw) as [url|]; [|exact I].
    destruct (contains _ url); [exact I|].
    intros [exc|[entries|]]; exact I. }
  intros video_urls. apply stalled_bind; [apply log_stalled|].
  intros _. apply stalled_bind; [apply create_downloads_stalled|].
  intros tasks. apply stalled_bind; [|intros _; apply log_stalled].
  intros [x|]; exact I.
Qed.

Lemma create_channels_stalled (channels_config : list channel_config) :
  forall (default_download_directory : str) (cookies_file : option str)
         (rate_limit : option Z) (tasks : list nat),
  stalled (create_channels channels_config default_download_directory
             cookies_file rate_limit tasks).
Proof.
  induction channels_config as [|channel_config rest IH];
    intros dir cookies rate tasks; cbn [create_channels]; [exact I|].
  unfold_bind. cbn [create_task bind stalled].
  split; [apply process_channel_stalled|]. intros i. apply IH.
Qed.

Lemma main_async_stalled (config_path : str) (rate_limit : option Z) :
  stalled (main_async config_path 0 rate_limit).
Proof.
  unfold main_async. unfold_bind.
  apply stalled_bind.
  { intros [|exc|exc|doc|strings exc|s exc|exc]; try exact I; cbn.
    - destruct (json_channels doc); [|exact I].
      destruct (json_default_directories doc); exact I.
    - destruct (bool_decide _); exact I.
    - destruct (contains _ s); exact I. }
  intros config. apply stalled_bind; [intros [exc|]; exact I|].
  intros _. apply stalled_bind; [split; [reflexivity|intros a; exact I]|].
  intros _. apply stalled_bind; [apply log_stalled|].
  intros _. apply stalled_bind; [apply log_stalled|].
  intros _. apply stalled_bind.
  { destruct rate_limit as [d|]; [destruct (truthy_int (Some d))|];
      try exact I. apply log_stalled. }
  intros _. apply stalled_bind.
  { destruct (cookies_file config) as [f|]; [destruct (truthy_str (Some f))|];
      try exact I. apply log_stalled. }
  intros _. apply stalled_bind; [apply create_channels_stalled|].
  intros tasks. apply stalled_bind; [|intros _; apply log_stalled].
  intros [x|]; exact I.
Qed.

Lemma step_stalled (i : nat) (w : world) (s s' : loop) :
  step i w s = Some s' ->
  sem s = 0%nat /\ Forall (fun t => stalled (code t)) (tasks s) ->
  sem s' = 0%nat /\ Forall (fun t => stalled (code t)) (tasks s').
Proof.
  intros Hstep [Hsem Hall].
  destruct (step_inv i w s s' Hstep) as (t & Hi & Hcase).
  pose proof (Forall_lookup_1 _ _ _ _ Hall Hi) as Ht. cbn in Ht.
  destruct Hcase as [n rest Hdone Hcb ->|child cbs k Hc ->|e k Hc Hstage Hw ->
                    |e k a Hc Hstage Hacq Hg ->]; cbn [tasks sem suspend].
  - split; [exact Hsem|]. apply Forall_insert; [exact Hall|exact Ht].
  - rewrite Hc in Ht. destruct Ht as [Hchild Hk]. split; [exact Hsem|].
    apply Forall_app. split; [apply Forall_insert; [exact Hall|apply Hk]|].
    repeat constructor. exact Hchild.
  - split; [exact Hsem|]. apply Forall_insert; [exact Hall|exact Ht].
  - rewrite Hc in Ht.
    destruct e; cbn in Ht; try destruct Ht;
      try (split; [exact Hsem|apply Forall_insert; [exact Hall|apply Ht]]).
    + split; [cbn; congruence|]. apply Forall_insert; [exact Hall|]. cbn. auto.
    + specialize (Hacq eq_refl). lia.
Qed.

(** With [--max-concurrent 0] the run never downloads anything: in every
    state the run can reach the semaphore's counter is 0 and no task is at
    a fetch, at a probe or in a rate-limit delay, suspended or about to
    be; a task at [async with semaphore] cannot take its step, and
    [process_channel] creates its download tasks inside such a block. *)
Theorem main_async_without_slots_never_fetches (config_path : str)
    (rate_limit : option Z) (s : loop) :
  reachable (boot (main_async config_path 0 rate_limit)) s ->
  sem s = 0%nat
  /\ in_flight_count s = 0%nat
  /\ Forall (fun t => forall e k, code t = Vis e k ->
                        item_stage e = false /\ e <> ERelease) (tasks s)
  /\ (forall i w t k, tasks s !! i = Some t -> code t = Vis EAcquire k ->
        step i w s = None).
Proof.
  intros Hreach.
  assert (sem s = 0%nat /\ Forall (fun t => stalled (code t)) (tasks s))
    as [Hsem Hall].
  { induction Hreach as [|s i w s' _ IH Hstep].
    - split; [reflexivity|]. repeat constructor. apply main_async_stalled.
    - exact (step_stalled i w s s' Hstep IH). }
  assert (Forall (fun t => forall e k, code t = Vis e k ->
                     item_stage e = false /\ e <> ERelease) (tasks s)) as Hnone.
  { eapply Forall_impl; [exact Hall|]. cbn. intros t Ht e k Hc.
    rewrite Hc in Ht. destruct e; cbn in Ht |- *; try destruct Ht;
      split; (reflexivity || discriminate). }
  split_and!; [exact Hsem| |exact Hnone|].
  - unfold in_flight_count. clear Hall.
    induction Hnone as [|t ts Ht _ IH]; [reflexivity|].
    rewrite filter_cons_False; [exact IH|].
    unfold in_flight. destruct (code t) as [| | |e k|] eqn:Hc; try discriminate.
    destruct (Ht e k eq_refl) as [-> _]. rewrite andb_false_r. discriminate.
  - intros i w t k Hi Hc. unfold step. rewrite Hi, Hc. cbn [step_event].
    rewrite Hsem. reflexivity.
Qed.

(** [asyncio.Semaphore] refuses a negative value: with a negative
    [--max-concurrent], [main_async] ends with an exception before it
    logs anything or creates a task. Once the configuration is loaded and
    the logger set up, the exception is the [ValueError] of the semaphore;
    [download_videos_in_channel] raises it as its first action. *)
Theorem main_async_negative_max_concurrent (config_path : str)
    (max_concurrent_downloads : Z) (rate_limit : option Z) (ws : nat -> world) :
  (max_concurrent_downloads < 0)%Z ->
  let r := run (main_async config_path max_concurrent_downloads rate_limit) ws in
  (exists x, r.2 = Raised x)
  /\ logged_lines r.1 = []
  /\ Forall (fun o => projT1 o = EReadConfig config_path
                      \/ projT1 o = ESetupLogger) r.1
  /\ (forall config,
        (run (load_config config_path) ws).2 = Returned config ->
        ws 1%nat ESetupLogger = None ->
        r.2 = Raised negative_semaphore)
  /\ (forall (channel_videos : list str) (download_dir : str),
        download_videos_in_channel channel_videos download_dir
          max_concurrent_downloads rate_limit
        = Raise negative_semaphore).
Proof.
  intros Hmax r. subst r.
  assert (Semaphore max_concurrent_downloads = Raise negative_semaphore) as Hsem.
  { unfold Semaphore. destruct (Z.ltb_spec max_concurrent_downloads 0); [|lia].
    reflexivity. }
  unfold download_videos_in_channel, main_async, load_config, setup_logger.
  unfold_bind. rewrite Hsem. cbn [bind run].
  destruct (ws O (EReadConfig config_path)) as [|exc|exc|doc|strings exc|s exc|exc];
    cbn [bind run fst snd].
  1-3, 7: split_and!; [eexists; reflexivity|reflexivity| |discriminate|reflexivity];
       repeat constructor.
  2: { destruct (bool_decide _); cbn [bind run fst snd];
       (split_and!; [eexists; reflexivity|reflexivity| |discriminate|reflexivity]);
       repeat constructor. }
  2: { destruct (contains _ s); cbn [bind run fst snd];
       (split_and!; [eexists; reflexivity|reflexivity| |discriminate|reflexivity]);
       repeat constructor. }
  destruct (json_channels doc) as [chans|]; cbn [bind run fst snd].
  2: split_and!; [eexists; reflexivity|reflexivity| |discriminate|reflexivity];
       repeat constructor.
  destruct (json_default_directories doc) as [dirs|]; cbn [bind run fst snd].
  2: split_and!; [eexists; reflexivity|reflexivity| |discriminate|reflexivity];
       repeat constructor.
  destruct (ws 1%nat ESetupLogger) as [exc|]; cbn [bind run fst snd].
  - split_and!; [eexists; reflexivity|reflexivity| |discriminate|reflexivity].
    constructor; [left; reflexivity|]. constructor; [right; reflexivity|constructor].
  - split_and!; [eexists; reflexivity|reflexivity| |reflexivity|reflexivity].
    constructor; [left; reflexivity|]. constructor; [right; reflexivity|constructor].
Qed.

Lemma main_async_negative_max_concurrent_witness :
  (run (main_async (py "config.json") (-1) None) (fun _ => two_items_world)).2
  = Raised negative_semaphore.
Proof.
  pose proof (main_async_negative_max_concurrent (py "config.json") (-1)%Z None
                (fun _ => two_items_world) ltac:(lia)) as (_ & _ & _ & H & _).
  eapply H; reflexivity.
Defined.

(** [load_config] returns a configuration exactly when the file holds a
    JSON object with a list under ["channels"] and a list under
    ["default_directories"]; the result has these two lists and the
    document's ["cookies_file"], which is [None] when the key is absent.
    The channels are checked first. A document that is not an object
    never gives a configuration: a number, [true], [false] or [null]
    raises [TypeError] at the first [in] test, a list or a string raises
    [TypeError] when "channels" is an element or a part of it, and
    [ConfigError] otherwise. When [load_config] raises, [main_async] ends
    with the same exception and has done nothing else: the logger is not
    set up, nothing is logged and no task is created. *)
Theorem load_config_validates (config_path : str) (ws : nat -> world) :
  let r := run (load_config config_path) ws in
  (forall config,
     r.2 = Returned config
     <-> exists doc chans dirs,
           ws O (EReadConfig config_path) = Json doc
           /\ json_channels doc = Some chans
           /\ json_default_directories doc = Some dirs
           /\ config = Config chans dirs (json_cookies_file doc))
  /\ (forall doc,
        ws O (EReadConfig config_path) = Json doc ->
        json_channels doc = None ->
        r.2 = Raised (ConfigError
                        (py "Configuration must contain a 'channels' list.")))
  /\ (ws O (EReadConfig config_path) = FileMissing ->
      r.2 = Raised (ConfigError
                      (py "Configuration file not found at: " ++ config_path)))
  /\ (forall exc,
        ws O (EReadConfig config_path) = JsonScalar exc ->
        r.2 = Raised (TypeError exc))
  /\ (forall strings exc,
        ws O (EReadConfig config_path) = JsonArray strings exc ->
        r.2 = if bool_decide (py "channels" ∈ strings)
              then Raised (TypeError exc)
              else Raised (ConfigError
                             (py "Configuration must contain a 'channels' list.")))
  /\ (forall s exc,
        ws O (EReadConfig config_path) = JsonString s exc ->
        r.2 = if contains (py "channels") s
              then Raised (TypeError exc)
              else Raised (ConfigError
                             (py "Configuration must contain a 'channels' list.")))
  /\ (forall x max_concurrent_downloads rate_limit,
        r.2 = Raised x ->
        run (main_async config_path max_concurrent_downloads rate_limit) ws
        = ([existT (EReadConfig config_path) (ws O (EReadConfig config_path))],
           Raised x)).
Proof.
  intros r. subst r. unfold main_async, load_config. unfold_bind.
  cbn [bind run].
  destruct (ws O (EReadConfig config_path)) as [|exc|exc|doc|strings exc|s exc|exc];
    cbn [bind run fst snd].
  1-3, 7: split_and!;
    [intros config; split; [discriminate|intros (d & c & ds & H & _); discriminate]
    |intros d H; discriminate
    |first [reflexivity|discriminate]
    |intros e H; first [injection H as <-; reflexivity|discriminate]
    |intros l e H; discriminate
    |intros l e H; discriminate
    |intros x m rl H; injection H as <-; reflexivity].
  2: { destruct (bool_decide (py "channels" ∈ strings)) eqn:Hin;
         cbn [bind run fst snd]; split_and!;
         try (intros config; split;
              [discriminate|intros (d & c & ds & H & _); discriminate]);
         try discriminate;
         try (intros l e H; injection H as <- <-; rewrite Hin; reflexivity);
         try (intros x m rl H; injection H as <-; reflexivity). }
  2: { destruct (contains (py "channels") s) eqn:Hin;
         cbn [bind run fst snd]; split_and!;
         try (intros config; split;
              [discriminate|intros (d & c & ds & H & _); discriminate]);
         try discriminate;
         try (intros l e H; injection H as <- <-; rewrite Hin; reflexivity);
         try (intros x m rl H; injection H as <-; reflexivity). }
  destruct (json_channels doc) as [chans|] eqn:Hch; cbn [bind run fst snd].
  2: { split_and!; try discriminate.
       - intros config; split; [discriminate|].
         intros (d & c & ds & H & Hc & _). congruence.
       - reflexivity.
       - intros x m rl H; injection H as <-; reflexivity. }
  destruct (json_default_directories doc) as [dirs|] eqn:Hd; cbn [bind run fst snd].
  2: { split_and!; try discriminate.
       - intros config; split; [discriminate|].
         intros (d & c & ds & H & _ & Hc & _). congruence.
       - intros d H Hn. congruence.
       - intros x m rl H; injection H as <-; reflexivity. }
  split_and!; try discriminate.
  - intros config. split.
    + intros H. injection H as <-. exists doc, chans, dirs. auto.
    + intros (d & c & ds & H & Hc & Hds & ->). congruence.
  - intros d H Hn. congruence.
Qed.

Example load_config_number :
  (run (load_config (py "config.json"))
       (fun _ => world_of (Answers (JsonScalar (py "argument of type 'int' is not iterable"))
                             None (inr None) (inr None) Completed None))).2
  = Raised (TypeError (py "argument of type 'int' is not iterable")).
Proof. reflexivity. Qed.

Lemma zero_slots_reachable :
  exists s : loop,
    reachable (boot (main_async (py "config.json") 0 None)) s
    /\ length (tasks s) = 2%nat
    /\ step 1 two_items_world s = None.
Proof.
  destruct (run_loop zero_slots_schedule
              (boot (main_async (py "config.json") 0 None)))
    as [s|] eqn:Hrun; [|vm_compute in Hrun; discriminate].
  exists s. split; [exact (run_loop_reachable _ _ _ Hrun)|].
  assert (Some (length (tasks s), step 1 two_items_world s)
          = Some (2%nat, None)) as H.
  { change (Some (length (tasks s), step 1 two_items_world s))
      with ((fun s => (length (tasks s), step 1 two_items_world s)) <$> Some s).
    rewrite <- Hrun. vm_compute. reflexivity. }
  injection H as H1 H2. split; assumption.
Qed.

Lemma main_async_without_slots_never_fetches_witness :
  exists s : loop,
    reachable (boot (main_async (py "config.json") 0 None)) s
    /\ length (tasks s) = 2%nat
    /\ sem s = 0%nat /\ in_flight_count s = 0%nat.
Proof.
  destruct zero_slots_reachable as (s & Hreach & Hlen & _).
  exists s. split; [exact Hreach|]. split; [exact Hlen|].
  destruct (main_async_without_slots_never_fetches (py "config.json") None s
              Hreach) as (Hsem & Hfl & _).
  split; [exact Hsem|exact Hfl].
Defined.
